(** * gochat, package wx: the cryptographic layer (wx/crypto.go)

    A shallow embedding of the padding engine, the AES-CBC and AES-ECB
    engines, the ECB block-mode adapter and the RSA key wrappers of
    [wx/crypto.go], followed by the properties of the specification that
    concern them.

    Go values are modelled this way:
    - [[]byte] is [list byte]; [len] is the length as a [Z];
    - [int] is [Z], with the 64-bit wrap-around of [-] written out
      ([int_sub]); [%] is the truncated remainder [Z.rem] and panics on a
      zero divisor;
    - a call that returns [(T, error)] or panics yields an [outcome];
    - the block cipher of [crypto/aes], the parsers of [encoding/pem] and
      [crypto/x509] and the primitives of [crypto/rsa] are not part of the
      repository: they are the operations of the classes [AES], [RSA] and
      [KeyFiles] (the last with the file system), and what the proofs need
      of the block cipher is stated in [AESLaws];
    - [cipher.NewCBCEncrypter], [bytes.TrimRightFunc] and [unicode/utf8]
      are written out after the standard library, CBC by the equations of
      the mode. *)

From Stdlib Require Import String ZArith List Lia Bool.
From coqutil Require Import Byte.
Import ListNotations.
Local Open Scope string_scope.
Local Open Scope list_scope.
Local Open Scope Z_scope.

(** ** Go values, errors and panics *)

Abbreviation bytes := (list byte).

Definition len {A : Type} (s : list A) : Z := Z.of_nat (length s).

(** What a Go [panic] carries: the message of an explicit [panic("...")], or
    the run-time error raised by an operator. *)
Inductive panic : Type :=
| PanicString (msg : string)
| DivideByZero
| IndexOutOfRange (i n : Z)
| SliceBoundsOutOfRange (h n : Z)
| InterfaceConversion (have want : string).

(** Go [error] values: [errors.New]/[fmt.Errorf] strings and
    [aes.KeySizeError]. *)
Inductive error : Type :=
| errorString (msg : string)
| KeySizeError (k : Z).

Inductive outcome (A : Type) : Type :=
| Ok (a : A)
| Err (e : error)
| Panic (p : panic).

Arguments Ok {A} a.
Arguments Err {A} e.
Arguments Panic {A} p.

Definition obind {A B : Type} (m : outcome A) (f : A -> outcome B) : outcome B :=
  match m with
  | Ok a => f a
  | Err e => Err e
  | Panic p => Panic p
  end.

Declare Scope go_scope.
Delimit Scope go_scope with go.
Notation "'let*' x ':=' m 'in' k" := (obind m (fun x => k))
  (at level 10, x name, m at level 100, k at level 200) : go_scope.
Local Open Scope go_scope.

(** [int] arithmetic: two's complement on 64 bits. *)
Definition int_wrap (z : Z) : Z := (z + 2 ^ 63) mod 2 ^ 64 - 2 ^ 63.

Definition int_sub (a b : Z) : Z := int_wrap (a - b).

Definition int_rem (a b : Z) : outcome Z :=
  if b =? 0 then Panic DivideByZero else Ok (Z.rem a b).

(** [s[i]] *)
Definition index (s : bytes) (i : Z) : outcome byte :=
  if (i <? 0) || (len s <=? i) then Panic (IndexOutOfRange i (len s))
  else Ok (nth (Z.to_nat i) s Byte.x00).

(** [s[:h]], for [h] up to [len(s)] (the code never slices past the length). *)
Definition slice_to (s : bytes) (h : Z) : outcome bytes :=
  if (h <? 0) || (len s <? h) then Panic (SliceBoundsOutOfRange h (len s))
  else Ok (firstn (Z.to_nat h) s).

(** [bytes.Repeat(b, count)] *)
Definition bytes_Repeat (b : bytes) (count : Z) : outcome bytes :=
  if count <? 0 then Panic (PanicString "bytes: negative Repeat count")
  else Ok (concat (repeat b (Z.to_nat count))).

(** ** unicode/utf8, as far as [bytes.TrimRightFunc] uses it *)

Module utf8.

Definition RuneError : Z := 0xFFFD.
Definition RuneSelf : Z := 0x80.
Definition UTFMax : Z := 4.

(** The table [first]: [0xF0] marks an ASCII byte, [0xF1] an invalid first
    byte; otherwise the low three bits are the size of the sequence and the
    high four bits index [acceptRanges]. *)
Definition first (b : Z) : Z :=
  if b <? 0x80 then 0xF0
  else if b <? 0xC2 then 0xF1
  else if b <? 0xE0 then 0x02
  else if b =? 0xE0 then 0x13
  else if b <? 0xED then 0x03
  else if b =? 0xED then 0x23
  else if b <? 0xF0 then 0x03
  else if b =? 0xF0 then 0x34
  else if b <? 0xF4 then 0x04
  else if b =? 0xF4 then 0x44
  else 0xF1.

Definition acceptRanges (i : Z) : Z * Z :=
  if i =? 1 then (0xA0, 0xBF)
  else if i =? 2 then (0x80, 0x9F)
  else if i =? 3 then (0x90, 0xBF)
  else if i =? 4 then (0x80, 0x8F)
  else (0x80, 0xBF).

Definition at_ (p : bytes) (i : nat) : Z := byte.unsigned (nth i p Byte.x00).

Definition continuation (b : Z) : bool := (0x80 <=? b) && (b <=? 0xBF).

(** [DecodeRune(p)]: the first rune of [p] and its width in bytes. *)
Definition DecodeRune (p : bytes) : Z * Z :=
  let n := len p in
  if n <? 1 then (RuneError, 0)
  else
    let p0 := at_ p 0 in
    let x := first p0 in
    if 0xF0 <=? x then ((if x =? 0xF0 then p0 else RuneError), 1)
    else
      let sz := Z.land x 7 in
      let '(lo, hi) := acceptRanges (Z.shiftr x 4) in
      if n <? sz then (RuneError, 1)
      else
        let b1 := at_ p 1 in
        if (b1 <? lo) || (hi <? b1) then (RuneError, 1)
        else if sz <=? 2 then
          (Z.lor (Z.shiftl (Z.land p0 0x1F) 6) (Z.land b1 0x3F), 2)
        else
          let b2 := at_ p 2 in
          if negb (continuation b2) then (RuneError, 1)
          else if sz <=? 3 then
            (Z.lor (Z.lor (Z.shiftl (Z.land p0 0x0F) 12)
                          (Z.shiftl (Z.land b1 0x3F) 6))
                   (Z.land b2 0x3F), 3)
          else
            let b3 := at_ p 3 in
            if negb (continuation b3) then (RuneError, 1)
            else
              (Z.lor (Z.lor (Z.lor (Z.shiftl (Z.land p0 0x07) 18)
                                   (Z.shiftl (Z.land b1 0x3F) 12))
                            (Z.shiftl (Z.land b2 0x3F) 6))
                     (Z.land b3 0x3F), 4).

Definition RuneStart (b : Z) : bool := negb (Z.land b 0xC0 =? 0x80).

(** The backwards search of [DecodeLastRune]:
    [for start--; start >= lim; start-- { if RuneStart(p[start]) { break } }],
    entered with [start] already decremented; at most [UTFMax] steps. *)
Fixpoint findStart (fuel : nat) (p : bytes) (lim start : Z) : Z :=
  match fuel with
  | O => start
  | S fuel' =>
      if lim <=? start then
        if RuneStart (at_ p (Z.to_nat start)) then start
        else findStart fuel' p lim (start - 1)
      else start
  end.

(** [DecodeLastRune(p)]: the last rune of [p] and its width in bytes. *)
Definition DecodeLastRune (p : bytes) : Z * Z :=
  let end_ := len p in
  if end_ =? 0 then (RuneError, 0)
  else
    let start := end_ - 1 in
    let r := at_ p (Z.to_nat start) in
    if r <? RuneSelf then (r, 1)
    else
      let lim := Z.max 0 (end_ - UTFMax) in
      let start := findStart 4 p lim (start - 1) in
      let start := Z.max 0 start in
      let '(r, size) := DecodeRune (skipn (Z.to_nat start) p) in
      if start + size =? end_ then (r, size) else (RuneError, 1).

End utf8.

(** ** bytes.TrimRightFunc *)

(** [lastIndexFunc(s, f, truth)]: the loop
    [for i := len(s); i > 0; { ... i -= size; if f(r) == truth { return i } }],
    one rune per round, so [length s] rounds are enough. *)
Fixpoint lastIndexFunc_loop (fuel : nat) (s : bytes) (f : Z -> bool)
    (truth : bool) (i : Z) : Z :=
  match fuel with
  | O => -1
  | S fuel' =>
      if 0 <? i then
        let r0 := utf8.at_ s (Z.to_nat (i - 1)) in
        let '(r, size) :=
          if utf8.RuneSelf <=? r0
          then utf8.DecodeLastRune (firstn (Z.to_nat i) s)
          else (r0, 1) in
        let i := i - size in
        if Bool.eqb (f r) truth then i
        else lastIndexFunc_loop fuel' s f truth i
      else -1
  end.

Definition lastIndexFunc (s : bytes) (f : Z -> bool) (truth : bool) : Z :=
  lastIndexFunc_loop (length s) s f truth (len s).

Definition bytes_TrimRightFunc (s : bytes) (f : Z -> bool) : bytes :=
  let i := lastIndexFunc s f false in
  let i :=
    if (0 <=? i) && (utf8.RuneSelf <=? utf8.at_ s (Z.to_nat i))
    then i + snd (utf8.DecodeRune (skipn (Z.to_nat i) s))
    else i + 1 in
  firstn (Z.to_nat i) s.

(** ** The padding engine (crypto.go, lines 375-409) *)

Definition ZeroPadding (cipherText : bytes) (blockSize : Z) : outcome bytes :=
  let* r := int_rem (len cipherText) blockSize in
  let padding := int_sub blockSize r in
  let* padText := bytes_Repeat [Byte.x00] padding in
  Ok (cipherText ++ padText).

Definition ZeroUnPadding (plainText : bytes) : bytes :=
  bytes_TrimRightFunc plainText (fun r => r =? 0).

Definition PKCS5Padding (cipherText : bytes) (blockSize : Z) : outcome bytes :=
  let* r := int_rem (len cipherText) blockSize in
  let padding := int_sub blockSize r in
  let padding := if padding =? 0 then blockSize else padding in
  let* padText := bytes_Repeat [byte.of_Z padding] padding in
  Ok (cipherText ++ padText).

(** A length fits an [int], so [length - 1] and [length - unpadding] (a byte
    value) do not wrap: they are written as the plain difference. *)
Definition PKCS5Unpadding (plainText : bytes) (blockSize : Z) : outcome bytes :=
  let length := len plainText in
  let* last := index plainText (length - 1) in
  let unpadding := byte.unsigned last in
  let unpadding :=
    if (unpadding <? 1) || (blockSize <? unpadding) then 0 else unpadding in
  slice_to plainText (length - unpadding).

(** ** Block ciphers and block modes (crypto/cipher, crypto/aes) *)

(** One invocation of the block cipher on one block. *)
Inductive call : Type :=
| EncryptBlock (src : bytes)
| DecryptBlock (src : bytes).

(** A computation that invokes the block cipher: the invocations made, in
    order, and how it ended. *)
Definition M (A : Type) : Type := (list call * outcome A)%type.

Definition ret {A : Type} (a : A) : M A := ([], Ok a).

Definition lift {A : Type} (o : outcome A) : M A := ([], o).

Definition raise {A : Type} (msg : string) : M A := ([], Panic (PanicString msg)).

Definition bind {A B : Type} (m : M A) (f : A -> M B) : M B :=
  match m with
  | (t, Ok a) => let '(t', r) := f a in (t ++ t', r)
  | (t, Err e) => (t, Err e)
  | (t, Panic p) => (t, Panic p)
  end.

Notation "'let+' x ':=' m 'in' k" := (bind m (fun x => k))
  (at level 10, x name, m at level 100, k at level 200) : go_scope.

(** [s[l:]] *)
Definition slice_from (s : bytes) (l : Z) : outcome bytes :=
  if (l <? 0) || (len s <? l) then Panic (SliceBoundsOutOfRange l (len s))
  else Ok (skipn (Z.to_nat l) s).

(** [make([]byte, n)] *)
Definition make (n : Z) : bytes := repeat Byte.x00 (Z.to_nat n).

(** The interface [cipher.Block]: a block size and the two permutations of
    one block. *)
Record Block : Type := {
  BlockSize : Z;
  encryptBlock : bytes -> bytes;
  decryptBlock : bytes -> bytes
}.

(** [b.Encrypt(dst, src)]: the first block of [src] encrypted into the first
    block of [dst]; the result is [dst] afterwards. crypto/aes panics on a
    short [src] or [dst]. *)
Definition Block_Encrypt (b : Block) (dst src : bytes) : M bytes :=
  if len src <? BlockSize b then raise "crypto/aes: input not full block"
  else if len dst <? BlockSize b then raise "crypto/aes: output not full block"
  else
    let blk := firstn (Z.to_nat (BlockSize b)) src in
    ([EncryptBlock blk], Ok (encryptBlock b blk ++ skipn (Z.to_nat (BlockSize b)) dst)).

Definition Block_Decrypt (b : Block) (dst src : bytes) : M bytes :=
  if len src <? BlockSize b then raise "crypto/aes: input not full block"
  else if len dst <? BlockSize b then raise "crypto/aes: output not full block"
  else
    let blk := firstn (Z.to_nat (BlockSize b)) src in
    ([DecryptBlock blk], Ok (decryptBlock b blk ++ skipn (Z.to_nat (BlockSize b)) dst)).

(** crypto/aes: the block cipher under a key, on 16-byte blocks. *)
Class AES : Type := {
  aes_encrypt : bytes -> bytes -> bytes;
  aes_decrypt : bytes -> bytes -> bytes
}.

Definition aes_BlockSize : Z := 16.

Definition aes_KeySizeOK (key : bytes) : bool :=
  (len key =? 16) || (len key =? 24) || (len key =? 32).

(** [aes.NewCipher(key)] *)
Definition aes_NewCipher `{AES} (key : bytes) : outcome Block :=
  if aes_KeySizeOK key
  then Ok {| BlockSize := aes_BlockSize;
             encryptBlock := aes_encrypt key;
             decryptBlock := aes_decrypt key |}
  else Err (KeySizeError (len key)).

(** What the proofs use of AES: under a key of a valid size, encryption and
    decryption map 16-byte blocks to 16-byte blocks and decryption undoes
    encryption. *)
Class AESLaws `{AES} : Prop := {
  aes_encrypt_length : forall key blk,
    aes_KeySizeOK key = true -> length blk = 16%nat ->
    length (aes_encrypt key blk) = 16%nat;
  aes_decrypt_length : forall key blk,
    aes_KeySizeOK key = true -> length blk = 16%nat ->
    length (aes_decrypt key blk) = 16%nat;
  aes_decrypt_encrypt : forall key blk,
    aes_KeySizeOK key = true -> length blk = 16%nat ->
    aes_decrypt key (aes_encrypt key blk) = blk
}.

(** [xorBytes(dst, a, b)] of crypto/cipher: as many bytes as the shorter of
    [a] and [b] has. *)
Fixpoint xorBytes (a b : bytes) : bytes :=
  match a, b with
  | x :: a', y :: b' => byte.xor x y :: xorBytes a' b'
  | _, _ => []
  end.

(** *** CBC (crypto/cipher) *)

Record cbc : Type := {
  cbc_b : Block;
  cbc_blockSize : Z;
  cbc_iv : bytes
}.

Definition newCBC (b : Block) (iv : bytes) : cbc :=
  {| cbc_b := b; cbc_blockSize := BlockSize b; cbc_iv := iv |}.

Definition NewCBCEncrypter (b : Block) (iv : bytes) : outcome cbc :=
  if negb (len iv =? BlockSize b)
  then Panic (PanicString "cipher.NewCBCEncrypter: IV length must equal block size")
  else Ok (newCBC b iv).

Definition NewCBCDecrypter (b : Block) (iv : bytes) : outcome cbc :=
  if negb (len iv =? BlockSize b)
  then Panic (PanicString "cipher.NewCBCDecrypter: IV length must equal block size")
  else Ok (newCBC b iv).

(** Each block is xored with the previous ciphertext block (the IV at
    first), then encrypted. *)
Fixpoint cbcEncrypter_loop (fuel : nat) (x : cbc) (iv dst src : bytes) : M bytes :=
  match fuel with
  | O => ret dst
  | S fuel' =>
      if 0 <? len src then
        let n := Z.to_nat (cbc_blockSize x) in
        let mixed := xorBytes (firstn n src) iv in
        let+ dst1 := Block_Encrypt (cbc_b x) dst mixed in
        let+ rest := cbcEncrypter_loop fuel' x (firstn n dst1) (skipn n dst1) (skipn n src) in
        ret (firstn n dst1 ++ rest)
      else ret dst
  end.

Definition cbcEncrypter_CryptBlocks (x : cbc) (dst src : bytes) : M bytes :=
  let+ r := lift (int_rem (len src) (cbc_blockSize x)) in
  if negb (r =? 0) then raise "crypto/cipher: input not full blocks"
  else if len dst <? len src then raise "crypto/cipher: output smaller than input"
  else cbcEncrypter_loop (length src) x (cbc_iv x) dst src.

(** Each block is decrypted, then xored with the previous ciphertext block
    (the IV at first). *)
Fixpoint cbcDecrypter_loop (fuel : nat) (x : cbc) (iv dst src : bytes) : M bytes :=
  match fuel with
  | O => ret dst
  | S fuel' =>
      if 0 <? len src then
        let n := Z.to_nat (cbc_blockSize x) in
        let+ dst1 := Block_Decrypt (cbc_b x) dst src in
        let plain := xorBytes (firstn n dst1) iv in
        let+ rest := cbcDecrypter_loop fuel' x (firstn n src) (skipn n dst1) (skipn n src) in
        ret (plain ++ rest)
      else ret dst
  end.

Definition cbcDecrypter_CryptBlocks (x : cbc) (dst src : bytes) : M bytes :=
  let+ r := lift (int_rem (len src) (cbc_blockSize x)) in
  if negb (r =? 0) then raise "crypto/cipher: input not full blocks"
  else if len dst <? len src then raise "crypto/cipher: output smaller than input"
  else cbcDecrypter_loop (length src) x (cbc_iv x) dst src.

(** *** ECB: the adapter of crypto.go (lines 413-474) *)

Record ecb : Type := {
  ecb_b : Block;
  ecb_blockSize : Z
}.

Definition newECB (b : Block) : ecb :=
  {| ecb_b := b; ecb_blockSize := BlockSize b |}.

Definition NewECBEncrypter (b : Block) : ecb := newECB b.

Definition NewECBDecrypter (b : Block) : ecb := newECB b.

(** The loop [for len(src) > 0 { x.b.Encrypt(dst, src[:x.blockSize]);
    src = src[x.blockSize:]; dst = dst[x.blockSize:] }]; the result is the
    slice [dst] as the loop leaves it. *)
Fixpoint ecbEncrypter_loop (fuel : nat) (x : ecb) (dst src : bytes) : M bytes :=
  match fuel with
  | O => ret dst
  | S fuel' =>
      if 0 <? len src then
        let+ blk := lift (slice_to src (ecb_blockSize x)) in
        let+ dst1 := Block_Encrypt (ecb_b x) dst blk in
        let+ src' := lift (slice_from src (ecb_blockSize x)) in
        let+ dst' := lift (slice_from dst1 (ecb_blockSize x)) in
        let+ rest := ecbEncrypter_loop fuel' x dst' src' in
        ret (firstn (Z.to_nat (ecb_blockSize x)) dst1 ++ rest)
      else ret dst
  end.

Definition ecbEncrypter_CryptBlocks (x : ecb) (dst src : bytes) : M bytes :=
  let+ r := lift (int_rem (len src) (ecb_blockSize x)) in
  if negb (r =? 0) then raise "crypto/cipher: input not full blocks"
  else if len dst <? len src then raise "crypto/cipher: output smaller than input"
  else ecbEncrypter_loop (length src) x dst src.

Fixpoint ecbDecrypter_loop (fuel : nat) (x : ecb) (dst src : bytes) : M bytes :=
  match fuel with
  | O => ret dst
  | S fuel' =>
      if 0 <? len src then
        let+ blk := lift (slice_to src (ecb_blockSize x)) in
        let+ dst1 := Block_Decrypt (ecb_b x) dst blk in
        let+ src' := lift (slice_from src (ecb_blockSize x)) in
        let+ dst' := lift (slice_from dst1 (ecb_blockSize x)) in
        let+ rest := ecbDecrypter_loop fuel' x dst' src' in
        ret (firstn (Z.to_nat (ecb_blockSize x)) dst1 ++ rest)
      else ret dst
  end.

Definition ecbDecrypter_CryptBlocks (x : ecb) (dst src : bytes) : M bytes :=
  let+ r := lift (int_rem (len src) (ecb_blockSize x)) in
  if negb (r =? 0) then raise "crypto/cipher: input not full blocks"
  else if len dst <? len src then raise "crypto/cipher: output smaller than input"
  else ecbDecrypter_loop (length src) x dst src.

(** ** The AES engines (crypto.go, lines 19-184) *)

Definition PaddingMode : Type := string.

Definition ZERO : PaddingMode := "ZERO".
Definition PKCS5 : PaddingMode := "PKCS#5".
Definition PKCS7 : PaddingMode := "PKCS#7".

Record cbccrypto : Type := {
  cbccrypto_key : bytes;
  cbccrypto_iv : bytes;
  cbccrypto_mode : PaddingMode
}.

Definition NewCBCCrypto (key iv : bytes) (mode : PaddingMode) : cbccrypto :=
  {| cbccrypto_key := key; cbccrypto_iv := iv; cbccrypto_mode := mode |}.

Definition cbccrypto_Encrypt `{AES} (c : cbccrypto) (plainText : bytes) : M bytes :=
  let+ block := lift (aes_NewCipher (cbccrypto_key c)) in
  if negb (len (cbccrypto_iv c) =? BlockSize block)
  then lift (Err (errorString "IV length must equal block size"))
  else
    let+ plainText := lift
      (if String.eqb (cbccrypto_mode c) ZERO
       then ZeroPadding plainText (BlockSize block)
       else if String.eqb (cbccrypto_mode c) PKCS5
       then PKCS5Padding plainText (BlockSize block)
       else if String.eqb (cbccrypto_mode c) PKCS7
       then PKCS5Padding plainText (len (cbccrypto_key c))
       else Ok plainText) in
    let cipherText := make (len plainText) in
    let+ blockMode := lift (NewCBCEncrypter block (cbccrypto_iv c)) in
    let+ cipherText := cbcEncrypter_CryptBlocks blockMode cipherText plainText in
    ret cipherText.

Definition cbccrypto_Decrypt `{AES} (c : cbccrypto) (cipherText : bytes) : M bytes :=
  let+ block := lift (aes_NewCipher (cbccrypto_key c)) in
  if negb (len (cbccrypto_iv c) =? BlockSize block)
  then lift (Err (errorString "IV length must equal block size"))
  else
    let plainText := make (len cipherText) in
    let+ blockMode := lift (NewCBCDecrypter block (cbccrypto_iv c)) in
    let+ plainText := cbcDecrypter_CryptBlocks blockMode plainText cipherText in
    let+ plainText := lift
      (if String.eqb (cbccrypto_mode c) ZERO
       then Ok (ZeroUnPadding plainText)
       else if String.eqb (cbccrypto_mode c) PKCS5
       then PKCS5Unpadding plainText (BlockSize block)
       else if String.eqb (cbccrypto_mode c) PKCS7
       then PKCS5Unpadding plainText (len (cbccrypto_key c))
       else Ok plainText) in
    ret plainText.

Record ecbcrypto : Type := {
  ecbcrypto_key : bytes;
  ecbcrypto_mode : PaddingMode
}.

Definition NewECBCrypto (key : bytes) (mode : PaddingMode) : ecbcrypto :=
  {| ecbcrypto_key := key; ecbcrypto_mode := mode |}.

Definition ecbcrypto_Encrypt `{AES} (c : ecbcrypto) (plainText : bytes) : M bytes :=
  let+ block := lift (aes_NewCipher (ecbcrypto_key c)) in
  let+ plainText := lift
    (if String.eqb (ecbcrypto_mode c) ZERO
     then ZeroPadding plainText (BlockSize block)
     else if String.eqb (ecbcrypto_mode c) PKCS5
     then PKCS5Padding plainText (BlockSize block)
     else if String.eqb (ecbcrypto_mode c) PKCS7
     then PKCS5Padding plainText (len (ecbcrypto_key c))
     else Ok plainText) in
  let cipherText := make (len plainText) in
  let blockMode := NewECBEncrypter block in
  let+ cipherText := ecbEncrypter_CryptBlocks blockMode cipherText plainText in
  ret cipherText.

Definition ecbcrypto_Decrypt `{AES} (c : ecbcrypto) (cipherText : bytes) : M bytes :=
  let+ block := lift (aes_NewCipher (ecbcrypto_key c)) in
  let plainText := make (len cipherText) in
  let blockMode := NewECBDecrypter block in
  let+ plainText := ecbDecrypter_CryptBlocks blockMode plainText cipherText in
  let+ plainText := lift
    (if String.eqb (ecbcrypto_mode c) ZERO
     then Ok (ZeroUnPadding plainText)
     else if String.eqb (ecbcrypto_mode c) PKCS5
     then PKCS5Unpadding plainText (BlockSize block)
     else if String.eqb (ecbcrypto_mode c) PKCS7
     then PKCS5Unpadding plainText (len (ecbcrypto_key c))
     else Ok plainText) in
  ret plainText.

(** [Decrypt(Encrypt(plainText))]: the second call runs when the first
    returned a ciphertext. *)
Definition cbccrypto_roundtrip `{AES} (c : cbccrypto) (plainText : bytes) : outcome bytes :=
  let* cipherText := snd (cbccrypto_Encrypt c plainText) in
  snd (cbccrypto_Decrypt c cipherText).

Definition ecbcrypto_roundtrip `{AES} (c : ecbcrypto) (plainText : bytes) : outcome bytes :=
  let* cipherText := snd (ecbcrypto_Encrypt c plainText) in
  snd (ecbcrypto_Decrypt c cipherText).

(** ** RSA keys (crypto.go, lines 186-301) *)

Definition PemBlockType : Type := string.

Definition RSAPKCS1 : PemBlockType := "RSA PRIVATE KEY".
Definition RSAPKCS8 : PemBlockType := "PRIVATE KEY".

(** [pem.Block] *)
Record pem_Block : Type := {
  pem_Type : string;
  pem_Bytes : bytes
}.

(** crypto, crypto/rsa, crypto/x509 and encoding/pem, as far as the key
    wrappers call them. [hash_Sum h data] is what [h.Sum(nil)] returns once
    [data] was written to a fresh [hash.New()]; a key that is not an RSA key
    is an [otherKey], and [typeName] is the name of its Go type. *)
Class RSA : Type := {
  Hash : Type;
  hash_Available : Hash -> bool;
  hash_String : Hash -> string;
  hash_Sum : Hash -> bytes -> bytes;
  rsa_PrivateKey : Type;
  rsa_PublicKey : Type;
  otherKey : Type;
  typeName : otherKey -> string;
  rsa_SignPKCS1v15 : rsa_PrivateKey -> Hash -> bytes -> outcome bytes;
  rsa_VerifyPKCS1v15 : rsa_PublicKey -> Hash -> bytes -> bytes -> option error;
  pem_Decode : bytes -> option pem_Block;
  x509_ParsePKCS1PrivateKey : bytes -> error + rsa_PrivateKey;
  x509_ParsePKCS8PrivateKey : bytes -> error + (rsa_PrivateKey + otherKey)
}.

(** [rsa.ErrVerification] *)
Definition rsa_ErrVerification : error :=
  errorString "crypto/rsa: verification error".

(** A value of type [interface{}] that holds a parsed key, or nothing. *)
Inductive any `{RSA} : Type :=
| nil_any
| rsa_any (k : rsa_PrivateKey)
| other_any (k : otherKey).

(** The type assertion of [pk] to a pointer to [rsa.PrivateKey], in its
    one-result form, which panics when the dynamic type is another. *)
Definition assert_rsa_PrivateKey `{RSA} (pk : any) : outcome rsa_PrivateKey :=
  match pk with
  | rsa_any k => Ok k
  | nil_any => Panic (InterfaceConversion "nil" "*rsa.PrivateKey")
  | other_any k => Panic (InterfaceConversion (typeName k) "*rsa.PrivateKey")
  end.

(** [hash.New()] panics when the hash function is not linked in. *)
Definition hash_New `{RSA} (hash : Hash) : outcome (bytes -> bytes) :=
  if hash_Available hash then Ok (hash_Sum hash)
  else Panic (PanicString ("crypto: requested hash function #" ++ hash_String hash ++ " is unavailable")).

Record PrivateKey `{RSA} : Type := { PrivateKey_key : rsa_PrivateKey }.

Record PublicKey `{RSA} : Type := { PublicKey_key : rsa_PublicKey }.

Definition unavailable `{RSA} (hash : Hash) : error :=
  errorString ("crypto: requested hash function (" ++ hash_String hash ++ ") is unavailable").

Definition PrivateKey_Sign `{RSA} (pk : PrivateKey) (hash : Hash) (data : bytes) : outcome bytes :=
  if negb (hash_Available hash) then Err (unavailable hash)
  else
    let* h := hash_New hash in
    let* signature := rsa_SignPKCS1v15 (PrivateKey_key pk) hash (h data) in
    Ok signature.

(** [Verify] returns an [error]: [Ok tt] stands for [nil]. *)
Definition PublicKey_Verify `{RSA} (pk : PublicKey) (hash : Hash) (data signature : bytes) : outcome unit :=
  if negb (hash_Available hash) then Err (unavailable hash)
  else
    let* h := hash_New hash in
    match rsa_VerifyPKCS1v15 (PublicKey_key pk) hash (h data) signature with
    | None => Ok tt
    | Some e => Err e
    end.

Definition NewPrivateKeyFromPemBlock `{RSA} (pemBlock : bytes) : outcome PrivateKey :=
  match pem_Decode pemBlock with
  | None => Err (errorString "no PEM data is found")
  | Some block =>
      let '(pk, err) :=
        if String.eqb (pem_Type block) RSAPKCS1 then
          match x509_ParsePKCS1PrivateKey (pem_Bytes block) with
          | inr k => (rsa_any k, None)
          | inl e => (nil_any, Some e)
          end
        else if String.eqb (pem_Type block) RSAPKCS8 then
          match x509_ParsePKCS8PrivateKey (pem_Bytes block) with
          | inr (inl k) => (rsa_any k, None)
          | inr (inr k) => (other_any k, None)
          | inl e => (nil_any, Some e)
          end
        else (nil_any, None) in
      match err with
      | Some e => Err e
      | None =>
          let* key := assert_rsa_PrivateKey pk in
          Ok {| PrivateKey_key := key |}
      end
  end.


(** ** The public-key and file loaders (crypto.go, lines 248-263 and 303-373) *)

(** A value of type [interface{}] that holds a parsed public key, or
    nothing ([cert.PublicKey] is nil for an algorithm x509 does not know). *)
Inductive any_pub `{RSA} : Type :=
| nil_pub
| rsa_pub (k : rsa_PublicKey)
| other_pub (k : otherKey).

(** The type assertion of [pk] to a pointer to [rsa.PublicKey], in its
    one-result form. *)
Definition assert_rsa_PublicKey `{RSA} (pk : any_pub) : outcome rsa_PublicKey :=
  match pk with
  | rsa_pub k => Ok k
  | nil_pub => Panic (InterfaceConversion "nil" "*rsa.PublicKey")
  | other_pub k => Panic (InterfaceConversion (typeName k) "*rsa.PublicKey")
  end.

(** path/filepath, io/ioutil and the public-key side of crypto/x509, as far
    as the loaders call them; the file system is what it is when the loader
    runs. *)
Class KeyFiles `{RSA} : Type := {
  filepath_Abs : string -> error + string;
  ioutil_ReadFile : string -> error + bytes;
  x509_ParsePKIXPublicKey : bytes -> error + any_pub;
  x509_Certificate : Type;
  x509_ParseCertificate : bytes -> error + x509_Certificate;
  cert_PublicKey : x509_Certificate -> any_pub
}.

Definition NewPrivateKeyFromPemFile `{KeyFiles} (pemFile : string) : outcome PrivateKey :=
  match filepath_Abs pemFile with
  | inl err => Err err
  | inr keyPath =>
      match ioutil_ReadFile keyPath with
      | inl err => Err err
      | inr b => NewPrivateKeyFromPemBlock b
      end
  end.

Definition NewPublicKeyFromPemBlock `{KeyFiles} (pemBlock : bytes) : outcome PublicKey :=
  match pem_Decode pemBlock with
  | None => Err (errorString "no PEM data is found")
  | Some block =>
      match x509_ParsePKIXPublicKey (pem_Bytes block) with
      | inl err => Err err
      | inr pk =>
          let* key := assert_rsa_PublicKey pk in
          Ok {| PublicKey_key := key |}
      end
  end.

Definition NewPublicKeyFromPemFile `{KeyFiles} (pemFile : string) : outcome PublicKey :=
  match filepath_Abs pemFile with
  | inl err => Err err
  | inr keyPath =>
      match ioutil_ReadFile keyPath with
      | inl err => Err err
      | inr b => NewPublicKeyFromPemBlock b
      end
  end.

Definition NewPublicKeyFromDerBlock `{KeyFiles} (pemBlock : bytes) : outcome PublicKey :=
  match pem_Decode pemBlock with
  | None => Err (errorString "no PEM data is found")
  | Some block =>
      match x509_ParseCertificate (pem_Bytes block) with
      | inl err => Err err
      | inr cert =>
          let* key := assert_rsa_PublicKey (cert_PublicKey cert) in
          Ok {| PublicKey_key := key |}
      end
  end.

Definition NewPublicKeyFromDerFile `{KeyFiles} (pemFile : string) : outcome PublicKey :=
  match filepath_Abs pemFile with
  | inl err => Err err
  | inr keyPath =>
      match ioutil_ReadFile keyPath with
      | inl err => Err err
      | inr b => NewPublicKeyFromDerBlock b
      end
  end.
(** ** Reference functions used by the statements *)

(** [s] cut into [k] consecutive blocks of [n] bytes. *)
Fixpoint chunks (k n : nat) (s : bytes) : list bytes :=
  match k with
  | O => []
  | S k' => firstn n s :: chunks k' n (skipn n s)
  end.

Definition endsWithZero (s : bytes) : bool :=
  match rev s with
  | Byte.x00 :: _ => true
  | _ => false
  end.

(** The last byte of a buffer, as an [int]. *)
Definition lastByte (s : bytes) : Z := byte.unsigned (last s Byte.x00).

(** The body of [utf8.DecodeRune] on a non-empty [p], as a function of its
    length and first four bytes. *)
Definition decode4 (n p0 b1 b2 b3 : Z) : Z * Z :=
  let x := utf8.first p0 in
  if 0xF0 <=? x then ((if x =? 0xF0 then p0 else utf8.RuneError), 1)
  else
    let sz := Z.land x 7 in
    let '(lo, hi) := utf8.acceptRanges (Z.shiftr x 4) in
    if n <? sz then (utf8.RuneError, 1)
    else
      if (b1 <? lo) || (hi <? b1) then (utf8.RuneError, 1)
      else if sz <=? 2 then
        (Z.lor (Z.shiftl (Z.land p0 0x1F) 6) (Z.land b1 0x3F), 2)
      else
        if negb (utf8.continuation b2) then (utf8.RuneError, 1)
        else if sz <=? 3 then
          (Z.lor (Z.lor (Z.shiftl (Z.land p0 0x0F) 12)
                        (Z.shiftl (Z.land b1 0x3F) 6))
                 (Z.land b2 0x3F), 3)
        else
          if negb (utf8.continuation b3) then (utf8.RuneError, 1)
          else
            (Z.lor (Z.lor (Z.lor (Z.shiftl (Z.land p0 0x07) 18)
                                 (Z.shiftl (Z.land b1 0x3F) 12))
                          (Z.shiftl (Z.land b2 0x3F) 6))
                   (Z.land b3 0x3F), 4).

(** The predicate [ZeroUnPadding] trims with. *)
Definition isZero (r : Z) : bool := r =? 0.

(** A block cipher whose two functions keep the block size. *)
Definition BlockOK (b : Block) : Prop :=
  0 < BlockSize b /\
  forall blk, len blk = BlockSize b ->
    len (encryptBlock b blk) = BlockSize b /\
    len (decryptBlock b blk) = BlockSize b.

(** CBC on a list of blocks, by the textbook equations: each ciphertext
    block is the encryption of the plaintext block xored with the previous
    ciphertext block. *)
Fixpoint cbc_encrypt_blocks (E : bytes -> bytes) (iv : bytes) (blocks : list bytes) : bytes :=
  match blocks with
  | [] => []
  | p :: ps => let c := E (xorBytes p iv) in c ++ cbc_encrypt_blocks E c ps
  end.

Fixpoint cbc_decrypt_blocks (D : bytes -> bytes) (iv : bytes) (blocks : list bytes) : bytes :=
  match blocks with
  | [] => []
  | c :: cs => xorBytes (D c) iv ++ cbc_decrypt_blocks D c cs
  end.

(** The [cipher.Block] that [aes.NewCipher] returns for a key of a valid
    size. *)
Definition aes_block `{AES} (key : bytes) : Block :=
  {| BlockSize := aes_BlockSize;
     encryptBlock := aes_encrypt key;
     decryptBlock := aes_decrypt key |}.

(** The plaintext as the [switch] of the four [Encrypt]/[Decrypt] methods
    pads it, and a decrypted buffer as it unpads it. *)
Definition paddedPlainText (mode : PaddingMode) (key plainText : bytes) : outcome bytes :=
  if String.eqb mode ZERO then ZeroPadding plainText aes_BlockSize
  else if String.eqb mode PKCS5 then PKCS5Padding plainText aes_BlockSize
  else if String.eqb mode PKCS7 then PKCS5Padding plainText (len key)
  else Ok plainText.

Definition unpaddedPlainText (mode : PaddingMode) (key plainText : bytes) : outcome bytes :=
  if String.eqb mode ZERO then Ok (ZeroUnPadding plainText)
  else if String.eqb mode PKCS5 then PKCS5Unpadding plainText aes_BlockSize
  else if String.eqb mode PKCS7 then PKCS5Unpadding plainText (len key)
  else Ok plainText.

(** ** Stand-ins for the libraries

    A block cipher that satisfies [AESLaws] (it reverses the block), and
    key-handling primitives, on which the statements below are
    evaluated. *)

Definition reversal : AES :=
  {| aes_encrypt := fun _ blk => rev blk;
     aes_decrypt := fun _ blk => rev blk |}.

Definition zeros (n : nat) : bytes := repeat Byte.x00 n.

(** Key-handling primitives with one hash function ([true]; [false] is one
    that is not linked in), keys that are numbers, and a PEM decoder that
    reads the first byte as the block type: 1 for "RSA PRIVATE KEY", 8 for
    "PRIVATE KEY", anything else for "CERTIFICATE"; the PKCS#8 parser
    returns an ECDSA key when the body starts with the byte 2. *)
Definition keyring : RSA :=
  {| Hash := bool;
     hash_Available := fun h => h;
     hash_String := fun h => if h then "SHA-256" else "unknown hash value 99";
     hash_Sum := fun _ data => rev data;
     rsa_PrivateKey := nat;
     rsa_PublicKey := nat;
     otherKey := unit;
     typeName := fun _ => "*ecdsa.PrivateKey";
     rsa_SignPKCS1v15 := fun k _ digest => Ok (digest ++ repeat Byte.x01 k);
     rsa_VerifyPKCS1v15 := fun k _ digest signature =>
       if list_eq_dec Byte.byte_eq_dec signature (digest ++ repeat Byte.x01 k)
       then None else Some rsa_ErrVerification;
     pem_Decode := fun pemBlock =>
       match pemBlock with
       | [] => None
       | Byte.x01 :: body => Some {| pem_Type := "RSA PRIVATE KEY"; pem_Bytes := body |}
       | Byte.x08 :: body => Some {| pem_Type := "PRIVATE KEY"; pem_Bytes := body |}
       | _ :: body => Some {| pem_Type := "CERTIFICATE"; pem_Bytes := body |}
       end;
     x509_ParsePKCS1PrivateKey := fun der =>
       match der with
       | [] => inl (errorString "x509: failed to parse private key")
       | _ => inr (length der)
       end;
     x509_ParsePKCS8PrivateKey := fun der =>
       match der with
       | [] => inl (errorString "x509: failed to parse private key")
       | Byte.x02 :: _ => inr (inr tt)
       | _ => inr (inl (length der))
       end |}.

(** A file system with two files and public-key parsers to go with
    [keyring]: a body that starts with the byte 2 is an ECDSA key, a
    certificate that starts with the byte 3 has a key of an algorithm that
    x509 does not know. *)
Definition keyfiles : @KeyFiles keyring :=
  {| filepath_Abs := fun f =>
       if String.eqb f "" then inl (errorString "getwd: no such file or directory")
       else inr ("/" ++ f)%string;
     ioutil_ReadFile := fun p =>
       if String.eqb p "/rsa.pem" then inr [Byte.x01; Byte.x2a]
       else if String.eqb p "/ec.pem" then inr [Byte.x08; Byte.x02]
       else inl (errorString "open: no such file or directory");
     x509_ParsePKIXPublicKey := fun der =>
       match der with
       | [] => inl (errorString "x509: failed to parse public key")
       | Byte.x02 :: _ => inr (@other_pub keyring tt)
       | _ => inr (@rsa_pub keyring (length der))
       end;
     x509_Certificate := bytes;
     x509_ParseCertificate := fun der =>
       match der with
       | [] => inl (errorString "x509: malformed certificate")
       | _ => inr der
       end;
     cert_PublicKey := fun c =>
       match c with
       | Byte.x03 :: _ => @nil_pub keyring
       | Byte.x02 :: _ => @other_pub keyring tt
       | _ => @rsa_pub keyring (length c)
       end |}.

(** * Properties *)

(** ** Integers, lengths and slices *)

Lemma int_wrap_small (z : Z) : - 2 ^ 63 <= z < 2 ^ 63 -> int_wrap z = z.
Proof.
  intros Hz. unfold int_wrap.
  rewrite Z.mod_small by lia. lia.
Qed.

Lemma len_nonneg {A : Type} (s : list A) : 0 <= len s.
Proof. unfold len. lia. Qed.

Lemma len_app {A : Type} (s t : list A) : len (s ++ t) = len s + len t.
Proof. unfold len. rewrite length_app. lia. Qed.

Lemma len_repeat {A : Type} (a : A) (n : Z) : 0 <= n -> len (repeat a (Z.to_nat n)) = n.
Proof. intros Hn. unfold len. rewrite repeat_length. lia. Qed.

Lemma rem_len (s : bytes) (n : Z) : 0 < n -> Z.rem (len s) n = len s mod n.
Proof.
  intros Hn. apply Z.rem_mod_nonneg; [apply len_nonneg | exact Hn].
Qed.

Lemma concat_repeat_singleton {A : Type} (a : A) (n : nat) :
  concat (repeat [a] n) = repeat a n.
Proof. induction n as [|n IH]; simpl; [reflexivity | now rewrite IH]. Qed.

Lemma bytes_Repeat_one (b : byte) (n : Z) :
  0 <= n -> bytes_Repeat [b] n = Ok (repeat b (Z.to_nat n)).
Proof.
  intros Hn. unfold bytes_Repeat.
  destruct (Z.ltb_spec n 0); [lia|].
  cbv iota. now rewrite concat_repeat_singleton.
Qed.

(** The amount of padding both padding functions compute. *)
Lemma padding_amount (s : bytes) (blockSize : Z) :
  0 < blockSize < 2 ^ 63 ->
  int_sub blockSize (len s mod blockSize) = blockSize - len s mod blockSize /\
  0 < blockSize - len s mod blockSize <= blockSize.
Proof.
  intros Hb.
  pose proof (Z.mod_pos_bound (len s) blockSize ltac:(lia)) as Hm.
  split; [|lia].
  unfold int_sub. apply int_wrap_small. lia.
Qed.

Lemma ZeroPadding_eq (s : bytes) (blockSize : Z) :
  0 < blockSize < 2 ^ 63 ->
  ZeroPadding s blockSize =
  Ok (s ++ repeat Byte.x00 (Z.to_nat (blockSize - len s mod blockSize))).
Proof.
  intros Hb. unfold ZeroPadding, int_rem.
  destruct (Z.eqb_spec blockSize 0); [lia|]. cbn [obind].
  rewrite rem_len by lia.
  destruct (padding_amount s blockSize Hb) as [-> Hp].
  rewrite bytes_Repeat_one by lia. reflexivity.
Qed.

Lemma PKCS5Padding_eq (s : bytes) (blockSize : Z) :
  0 < blockSize < 2 ^ 63 ->
  let n := blockSize - len s mod blockSize in
  PKCS5Padding s blockSize = Ok (s ++ repeat (byte.of_Z n) (Z.to_nat n)).
Proof.
  intros Hb n. unfold PKCS5Padding, int_rem.
  destruct (Z.eqb_spec blockSize 0); [lia|]. cbn [obind].
  rewrite rem_len by lia.
  destruct (padding_amount s blockSize Hb) as [-> Hp].
  fold n in Hp |- *.
  destruct (Z.eqb_spec n 0); [lia|].
  cbv iota. rewrite bytes_Repeat_one by lia. reflexivity.
Qed.

Lemma last_nth (s : bytes) :
  nth (Z.to_nat (len s - 1)) s Byte.x00 = last s Byte.x00.
Proof.
  unfold len.
  destruct s as [|b s] using rev_ind; [reflexivity|].
  rewrite last_last, length_app. cbn [length].
  replace (Z.to_nat (Z.of_nat (length s + 1) - 1)) with (length s) by lia.
  apply nth_middle.
Qed.

Lemma PKCS5Unpadding_eq (s : bytes) (blockSize : Z) :
  s <> [] ->
  PKCS5Unpadding s blockSize =
  let n := if (lastByte s <? 1) || (blockSize <? lastByte s) then 0 else lastByte s in
  slice_to s (len s - n).
Proof.
  intros Hs. unfold PKCS5Unpadding, index.
  assert (0 < len s) by (unfold len; destruct s; [congruence | simpl; lia]).
  destruct (Z.ltb_spec (len s - 1) 0); [lia|].
  destruct (Z.leb_spec (len s) (len s - 1)); [lia|].
  cbn [orb obind]. rewrite last_nth. reflexivity.
Qed.

Lemma slice_to_len (s : bytes) : slice_to s (len s) = Ok s.
Proof.
  unfold slice_to.
  pose proof (len_nonneg s).
  destruct (Z.ltb_spec (len s) 0); [lia|].
  rewrite Z.ltb_irrefl. cbn [orb].
  unfold len. rewrite Nat2Z.id, firstn_all. reflexivity.
Qed.

(** ** UTF-8 decoding and the trimming of zero bytes *)

Lemma DecodeRune_decode4 (p : bytes) :
  utf8.DecodeRune p =
  if len p <? 1 then (utf8.RuneError, 0)
  else decode4 (len p) (utf8.at_ p 0) (utf8.at_ p 1) (utf8.at_ p 2) (utf8.at_ p 3).
Proof. reflexivity. Qed.

Lemma land_low (a n : Z) : 0 <= n -> Z.land a (Z.ones n) = a mod 2 ^ n.
Proof. intros Hn. now apply Z.land_ones. Qed.

Lemma lor_nonzero_l (a b : Z) : a <> 0 -> Z.lor a b <> 0.
Proof. intros Ha H. apply Z.lor_eq_0_iff in H. tauto. Qed.

Lemma lor_nonzero_r (a b : Z) : b <> 0 -> Z.lor a b <> 0.
Proof. intros Ha H. apply Z.lor_eq_0_iff in H. tauto. Qed.

Lemma shiftl_nonzero (a n : Z) : 0 <= n -> a <> 0 -> Z.shiftl a n <> 0.
Proof.
  intros Hn Ha. rewrite Z.shiftl_mul_pow2 by exact Hn.
  pose proof (Z.pow_pos_nonneg 2 n ltac:(lia) Hn). nia.
Qed.

Lemma land31 (a : Z) : Z.land a 0x1F = a mod 32.
Proof. exact (land_low a 5 ltac:(lia)). Qed.

Lemma land15 (a : Z) : Z.land a 0x0F = a mod 16.
Proof. exact (land_low a 4 ltac:(lia)). Qed.

Lemma land7 (a : Z) : Z.land a 0x07 = a mod 8.
Proof. exact (land_low a 3 ltac:(lia)). Qed.

Lemma land63 (a : Z) : Z.land a 0x3F = a mod 64.
Proof. exact (land_low a 6 ltac:(lia)). Qed.

Ltac split_if :=
  match goal with
  | |- context [if ?a <? ?b then _ else _] => destruct (Z.ltb_spec a b)
  | |- context [if ?a <=? ?b then _ else _] => destruct (Z.leb_spec a b)
  | |- context [if ?a =? ?b then _ else _] => destruct (Z.eqb_spec a b)
  end.

Lemma first_ascii (p0 : Z) : p0 < 0x80 -> utf8.first p0 = 0xF0.
Proof. intros H. unfold utf8.first. split_if; [reflexivity | lia]. Qed.

Lemma decode4_ascii (n p0 b1 b2 b3 : Z) :
  p0 < 0x80 -> decode4 n p0 b1 b2 b3 = (p0, 1).
Proof. intros H. unfold decode4. now rewrite first_ascii. Qed.

(** The leading bytes and what [first] holds for each. *)
Lemma first_cases (p0 : Z) :
  0x80 <= p0 < 256 ->
  utf8.first p0 = 0xF1 \/
  (utf8.first p0 = 0x02 /\ 0xC2 <= p0 < 0xE0) \/
  (utf8.first p0 = 0x13 /\ p0 = 0xE0) \/
  (utf8.first p0 = 0x03 /\ 0xE1 <= p0 < 0xF0) \/
  (utf8.first p0 = 0x23 /\ p0 = 0xED) \/
  (utf8.first p0 = 0x34 /\ p0 = 0xF0) \/
  (utf8.first p0 = 0x04 /\ 0xF1 <= p0 < 0xF4) \/
  (utf8.first p0 = 0x44 /\ p0 = 0xF4).
Proof.
  intros H. unfold utf8.first.
  repeat split_if; try lia; tauto.
Qed.

Ltac eval_first :=
  repeat match goal with
  | |- context [Z.land (Z.pos ?p) 7] =>
      let v := eval vm_compute in (Z.land (Z.pos p) 7) in
      change (Z.land (Z.pos p) 7) with v
  | |- context [utf8.acceptRanges (Z.shiftr (Z.pos ?p) 4)] =>
      let v := eval vm_compute in (utf8.acceptRanges (Z.shiftr (Z.pos p) 4)) in
      change (utf8.acceptRanges (Z.shiftr (Z.pos p) 4)) with v
  end; cbv beta iota.

Ltac rune_nonzero :=
  rewrite ?land31, ?land15, ?land7, ?land63;
  first
    [ apply lor_nonzero_l; rune_nonzero
    | apply lor_nonzero_r; rune_nonzero
    | apply shiftl_nonzero; [lia | rune_nonzero]
    | Z.div_mod_to_equations; lia ].

Lemma continuation_range (b : Z) :
  utf8.continuation b = true <-> 0x80 <= b <= 0xBF.
Proof. unfold utf8.continuation. lia. Qed.


Ltac closed_leb :=
  repeat match goal with
  | |- context [Z.pos ?a <=? Z.pos ?b] =>
      let v := eval vm_compute in (Z.pos a <=? Z.pos b) in
      change (Z.pos a <=? Z.pos b) with v
  end; cbv beta iota.

Ltac head_if :=
  cbv beta iota;
  match goal with
  | |- (if negb ?c then _ else _) = _ \/ _ => destruct c eqn:?; [|now left]
  | |- (if ?n <? ?k then _ else _) = _ \/ _ => destruct (Z.ltb_spec n k); [now left|]
  | |- (if ?c then _ else _) = _ \/ _ => destruct c eqn:?; [now left|]
  end;
  cbn [negb]; cbv beta iota.

Ltac same_if :=
  cbv beta iota;
  match goal with
  | |- (if ?n <? ?k then _ else _) = _ => destruct (Z.ltb_spec n k); [lia|]
  | H : ?c = _ |- (if ?c then _ else _) = _ => rewrite H
  | H : ?c = _ |- (if negb ?c then _ else _) = _ => rewrite H
  end;
  cbn [negb]; cbv beta iota.

Ltac multi_byte :=
  repeat head_if;
  right; eexists _, _; split; [reflexivity|]; split; [lia|]; split;
  [ rune_nonzero
  | intros n' c2 c3 ? Hc2 Hc3;
    try rewrite (Hc2 ltac:(lia)); try rewrite (Hc3 ltac:(lia));
    repeat same_if; reflexivity ].

(** A byte of [0x80] or more opens either nothing that decodes (the result
    is [RuneError] of width 1) or a sequence of 2 to 4 bytes that lies within
    the [n] bytes at hand, decodes to a rune other than 0, and decodes the
    same whatever follows it. *)
Lemma decode4_lead (n p0 b1 b2 b3 : Z) :
  0x80 <= p0 < 256 ->
  decode4 n p0 b1 b2 b3 = (utf8.RuneError, 1) \/
  exists r size,
    decode4 n p0 b1 b2 b3 = (r, size) /\ 2 <= size <= n /\ r <> 0 /\
    forall n' c2 c3,
      n <= n' -> (3 <= size -> c2 = b2) -> (4 <= size -> c3 = b3) ->
      decode4 n' p0 b1 c2 c3 = (r, size).
Proof.
  intros Hp0.
  destruct (first_cases p0 Hp0) as
    [Hx|[[Hx Hr]|[[Hx Hr]|[[Hx Hr]|[[Hx Hr]|[[Hx Hr]|[[Hx Hr]|[Hx Hr]]]]]]]];
    unfold decode4; cbv zeta; rewrite !Hx; eval_first; closed_leb.
  - left. reflexivity.
  - multi_byte.
  - multi_byte.
  - multi_byte.
  - multi_byte.
  - multi_byte.
  - multi_byte.
  - multi_byte.
Qed.

Lemma decode4_broken (n p0 b1 b2 b3 : Z) :
  0x80 <= p0 < 256 -> n = 1 \/ b1 < 0x80 ->
  decode4 n p0 b1 b2 b3 = (utf8.RuneError, 1).
Proof.
  intros Hp0 Hb.
  destruct (first_cases p0 Hp0) as
    [Hx|[[Hx Hr]|[[Hx Hr]|[[Hx Hr]|[[Hx Hr]|[[Hx Hr]|[[Hx Hr]|[Hx Hr]]]]]]]];
    unfold decode4; cbv zeta; rewrite !Hx; eval_first; try reflexivity.
  all: match goal with |- context [if ?n <? ?k then _ else _] =>
         destruct (Z.ltb_spec n k); [reflexivity|] end.
  all: match goal with |- context [if ?c then _ else _] =>
         destruct c eqn:Hc; [reflexivity | lia] end.
Qed.

Lemma at_range (p : bytes) (i : nat) : 0 <= utf8.at_ p i < 256.
Proof. unfold utf8.at_. apply byte.unsigned_range. Qed.

Lemma at_app_l (p t : bytes) (i : nat) :
  (i < length p)%nat -> utf8.at_ (p ++ t) i = utf8.at_ p i.
Proof. intros Hi. unfold utf8.at_. now rewrite app_nth1. Qed.

Lemma findStart_le (fuel : nat) (p : bytes) (lim start : Z) :
  utf8.findStart fuel p lim start <= start.
Proof.
  revert start. induction fuel as [|fuel IH]; intros start; cbn [utf8.findStart]; [lia|].
  destruct (lim <=? start); [|lia].
  destruct (utf8.RuneStart _); [lia|].
  specialize (IH (start - 1)). lia.
Qed.

Lemma at_zeros (n i : nat) : utf8.at_ (repeat Byte.x00 n) i = 0.
Proof. unfold utf8.at_. now rewrite nth_repeat. Qed.

Lemma at_last (q : bytes) (b : byte) :
  utf8.at_ (q ++ [b]) (length q) = byte.unsigned b.
Proof. unfold utf8.at_. now rewrite nth_middle. Qed.

Lemma at_skipn (p : bytes) (k i : nat) :
  utf8.at_ (skipn k p) i = utf8.at_ p (k + i).
Proof.
  unfold utf8.at_. f_equal.
  rewrite <- (firstn_skipn k p) at 2.
  destruct (Nat.le_gt_cases k (length p)) as [Hk|Hk].
  - rewrite app_nth2; rewrite length_firstn, Nat.min_l by lia; [|lia].
    f_equal. lia.
  - rewrite skipn_all2 by lia. rewrite app_nil_r.
    rewrite !nth_overflow; [reflexivity | | cbn; lia].
    rewrite length_firstn. lia.
Qed.

Lemma len_skipn (p : bytes) (k : nat) :
  (k <= length p)%nat -> len (skipn k p) = len p - Z.of_nat k.
Proof. intros Hk. unfold len. rewrite length_skipn. lia. Qed.

(** A lone byte of [0x80] or more, followed by zero bytes only, decodes with
    width 1. *)
Lemma DecodeRune_lone (b : byte) (n : nat) :
  0x80 <= byte.unsigned b ->
  snd (utf8.DecodeRune (b :: repeat Byte.x00 n)) = 1.
Proof.
  intros Hb. rewrite DecodeRune_decode4.
  assert (Hl : len (b :: repeat Byte.x00 n) = 1 + Z.of_nat n).
  { unfold len. cbn [length]. rewrite repeat_length. lia. }
  destruct (Z.ltb_spec (len (b :: repeat Byte.x00 n)) 1); [lia|].
  rewrite decode4_broken; [reflexivity | |].
  - pose proof (byte.unsigned_range b). unfold utf8.at_. cbn [nth]. lia.
  - destruct n as [|n]; [left; rewrite Hl; lia|].
    right. unfold utf8.at_. cbn [nth repeat]. reflexivity.
Qed.

(** What [DecodeLastRune] returns on a buffer that ends in a byte of [0x80]
    or more: a rune other than 0, of a width within the buffer, that starts
    at a byte of [0x80] or more and is decoded with the same width from
    there, whatever zero bytes follow the buffer. *)
Lemma DecodeLastRune_high (q : bytes) (b : byte) :
  0x80 <= byte.unsigned b ->
  exists r size,
    utf8.DecodeLastRune (q ++ [b]) = (r, size) /\ r <> 0 /\
    1 <= size <= len (q ++ [b]) /\
    0x80 <= utf8.at_ (q ++ [b]) (Z.to_nat (len (q ++ [b]) - size)) /\
    forall n,
      snd (utf8.DecodeRune
             (skipn (Z.to_nat (len (q ++ [b]) - size)) (q ++ [b]) ++ repeat Byte.x00 n)) = size.
Proof.
  intros Hb.
  set (s := q ++ [b]).
  assert (Hlen : len s = len q + 1) by (unfold s; rewrite len_app; reflexivity).
  pose proof (len_nonneg q) as Hq.
  assert (Hlone : utf8.RuneError <> 0 /\ 1 <= 1 <= len s /\
                  0x80 <= utf8.at_ s (Z.to_nat (len s - 1)) /\
                  forall n, snd (utf8.DecodeRune (skipn (Z.to_nat (len s - 1)) s ++ repeat Byte.x00 n)) = 1).
  { split; [discriminate|]. split; [lia|].
    replace (Z.to_nat (len s - 1)) with (length q) by (unfold len in *; lia).
    split.
    - unfold s. now rewrite at_last.
    - intros n. unfold s. rewrite skipn_app, skipn_all, Nat.sub_diag. cbn [skipn app].
      now apply DecodeRune_lone. }
  unfold utf8.DecodeLastRune. fold s.
  destruct (Z.eqb_spec (len s) 0); [lia|].
  replace (Z.to_nat (len s - 1)) with (length q) by (unfold len in *; lia).
  unfold s at 1. rewrite at_last. fold s.
  destruct (Z.ltb_spec (byte.unsigned b) utf8.RuneSelf) as [Hlt|_];
    [unfold utf8.RuneSelf in Hlt; lia|].
  set (start0 := utf8.findStart 4 s _ _).
  assert (Hs0 : start0 <= len s - 2).
  { unfold start0. etransitivity; [apply findStart_le | lia]. }
  set (start := Z.max 0 start0).
  assert (Hstart : 0 <= start <= len s - 1) by (unfold start; lia).
  set (k := Z.to_nat start).
  assert (Hk : (k < length s)%nat) by (unfold k, len in *; lia).
  rewrite DecodeRune_decode4.
  rewrite len_skipn by lia.
  destruct (Z.ltb_spec (len s - Z.of_nat k) 1); [lia|].
  rewrite !at_skipn.
  set (p0 := utf8.at_ s (k + 0)).
  destruct (Z.lt_ge_cases p0 0x80) as [Hp0|Hp0].
  - (* an ASCII byte before the end: not the last rune *)
    rewrite decode4_ascii by exact Hp0.
    destruct (Z.eqb_spec (start + 1) (len s)) as [He|He].
    + exfalso. assert (k = length q) by (unfold k, len in *; lia).
      subst p0. replace (k + 0)%nat with (length q) in Hp0 by lia.
      unfold s in Hp0. rewrite at_last in Hp0. lia.
    + exists utf8.RuneError, 1. split; [reflexivity | exact Hlone].
  - destruct (decode4_lead (len s - Z.of_nat k) p0 (utf8.at_ s (k + 1))
                (utf8.at_ s (k + 2)) (utf8.at_ s (k + 3)))
      as [E|(r & size & E & Hsz & Hr & Hstable)].
    { pose proof (at_range s (k + 0)). fold p0 in H0. lia. }
    + rewrite E. exists utf8.RuneError, 1.
      split; [now destruct (start + 1 =? len s) | exact Hlone].
    + rewrite E.
      destruct (Z.eqb_spec (start + size) (len s)) as [He|He];
        [|exists utf8.RuneError, 1; split; [reflexivity | exact Hlone]].
      exists r, size. split; [reflexivity|]. split; [exact Hr|]. split; [lia|].
      replace (Z.to_nat (len s - size)) with k by (unfold k; lia).
      split; [subst p0; now replace (k + 0)%nat with k in Hp0 by lia|].
      intros m. rewrite DecodeRune_decode4, len_app, len_skipn by lia.
      pose proof (len_nonneg (repeat Byte.x00 m)).
      destruct (Z.ltb_spec (len s - Z.of_nat k + len (repeat Byte.x00 m)) 1); [lia|].
      assert (Hin : forall i, Z.of_nat i < size ->
                utf8.at_ (skipn k s ++ repeat Byte.x00 m) i = utf8.at_ s (k + i)).
      { intros i Hi. rewrite at_app_l, at_skipn; [reflexivity|].
        rewrite length_skipn. unfold len in *. lia. }
      rewrite (Hin 0%nat), (Hin 1%nat) by lia. fold p0.
      rewrite (Hstable _ (utf8.at_ (skipn k s ++ repeat Byte.x00 m) 2)
                 (utf8.at_ (skipn k s ++ repeat Byte.x00 m) 3)); [reflexivity|lia| |].
      * intros H3. apply Hin. lia.
      * intros H4. apply Hin. lia.
Qed.


(** The rounds of [lastIndexFunc] over a run of [k] zero bytes. *)
Lemma lastIndexFunc_loop_zeros (s : bytes) (k fuel : nat) (i0 : nat) :
  (forall j, (i0 <= j < i0 + k)%nat -> utf8.at_ s j = 0) ->
  lastIndexFunc_loop (k + fuel) s isZero false (Z.of_nat (i0 + k)) =
  lastIndexFunc_loop fuel s isZero false (Z.of_nat i0).
Proof.
  induction k as [|k IH]; intros Hz.
  - now rewrite Nat.add_0_r.
  - cbn [Nat.add lastIndexFunc_loop].
    destruct (Z.ltb_spec 0 (Z.of_nat (i0 + S k))); [|lia].
    replace (Z.to_nat (Z.of_nat (i0 + S k) - 1)) with (i0 + k)%nat by lia.
    rewrite (Hz (i0 + k)%nat) by lia.
    cbn [Z.leb Z.compare utf8.RuneSelf isZero Z.eqb Bool.eqb].
    replace (Z.of_nat (i0 + S k) - 1) with (Z.of_nat (i0 + k)) by lia.
    apply IH. intros j Hj. apply Hz. lia.
Qed.

Lemma unsigned_zero (b : byte) : byte.unsigned b = 0 -> b = Byte.x00.
Proof. intros H. apply byte.unsigned_inj. exact H. Qed.

Lemma at_zeros_after (q : bytes) (n j : nat) :
  (length q <= j)%nat -> utf8.at_ (q ++ repeat Byte.x00 n) j = 0.
Proof.
  intros Hj. unfold utf8.at_.
  rewrite app_nth2 by lia. now rewrite nth_repeat.
Qed.

Lemma lastIndexFunc_zeros (q : bytes) (n : nat) :
  lastIndexFunc (q ++ repeat Byte.x00 n) isZero false =
  lastIndexFunc_loop (length q) (q ++ repeat Byte.x00 n) isZero false (len q).
Proof.
  unfold lastIndexFunc, len.
  rewrite length_app, repeat_length.
  rewrite (Nat.add_comm (length q) n) at 1.
  apply lastIndexFunc_loop_zeros.
  intros j Hj. apply at_zeros_after. lia.
Qed.

Lemma TrimRightFunc_zeros (n : nat) :
  bytes_TrimRightFunc (repeat Byte.x00 n) isZero = [].
Proof.
  unfold bytes_TrimRightFunc.
  pose proof (lastIndexFunc_zeros [] n) as H. cbn [app length] in H.
  rewrite H. reflexivity.
Qed.

Lemma firstn_app_all (q t : bytes) : firstn (length q) (q ++ t) = q.
Proof. now rewrite firstn_app, firstn_all, Nat.sub_diag, app_nil_r. Qed.

(** Where [lastIndexFunc] stops on [p ++ [b]] followed by zero bytes, [b]
    not zero: at [b] when it is an ASCII byte, and otherwise at the start of
    the last rune, whose forward decoding ends right after [b]. *)
Lemma lastIndexFunc_nonzero (p : bytes) (b : byte) (n : nat) :
  b <> Byte.x00 ->
  let q := p ++ [b] in
  let s := q ++ repeat Byte.x00 n in
  (byte.unsigned b < utf8.RuneSelf /\ lastIndexFunc s isZero false = len p) \/
  (utf8.RuneSelf <= byte.unsigned b /\
   exists size,
     1 <= size <= len q /\
     lastIndexFunc s isZero false = len q - size /\
     utf8.RuneSelf <= utf8.at_ q (Z.to_nat (len q - size)) /\
     snd (utf8.DecodeRune (skipn (Z.to_nat (len q - size)) q ++ repeat Byte.x00 n)) = size).
Proof.
  intros Hb q s.
  assert (Hu : byte.unsigned b <> 0) by (intros H; now apply Hb, unsigned_zero).
  pose proof (byte.unsigned_range b) as Hrange.
  assert (Hq : length q = S (length p)) by (unfold q; rewrite length_app; cbn; lia).
  assert (Hlq : len q = len p + 1) by (unfold len; lia).
  assert (Hlast : utf8.at_ s (length p) = byte.unsigned b).
  { unfold s. rewrite at_app_l by lia. apply at_last. }
  pose proof (lastIndexFunc_zeros q n) as HL. fold s in HL.
  rewrite !HL. clear HL.
  rewrite Hq. cbn [lastIndexFunc_loop].
  pose proof (len_nonneg p).
  destruct (Z.ltb_spec 0 (len q)); [|lia].
  replace (Z.to_nat (len q - 1)) with (length p) by (unfold len in *; lia).
  rewrite Hlast.
  replace (firstn (Z.to_nat (len q)) s) with q
    by (unfold s, len; now rewrite Nat2Z.id, firstn_app_all).
  destruct (Z.leb_spec utf8.RuneSelf (byte.unsigned b)) as [Hhigh|Hlow].
  - right. split; [exact Hhigh|].
    destruct (DecodeLastRune_high p b Hhigh) as (r & size & E & Hr & Hsize & Hat & Hfwd).
    fold q in E, Hsize, Hat, Hfwd. rewrite E.
    replace (isZero r) with false by (unfold isZero; lia).
    cbn [Bool.eqb].
    exists size. split; [exact Hsize|]. split; [reflexivity|].
    split; [exact Hat | apply Hfwd].
  - left. split; [exact Hlow|].
    replace (isZero (byte.unsigned b)) with false by (unfold isZero; lia).
    cbn [Bool.eqb]. lia.
Qed.

Lemma TrimRightFunc_nonzero (p : bytes) (b : byte) (n : nat) :
  b <> Byte.x00 ->
  bytes_TrimRightFunc ((p ++ [b]) ++ repeat Byte.x00 n) isZero = p ++ [b].
Proof.
  intros Hb.
  pose proof (lastIndexFunc_nonzero p b n Hb) as H. cbv zeta in H.
  set (q := p ++ [b]) in *. set (s := q ++ repeat Byte.x00 n) in *.
  assert (Hq : length q = S (length p)) by (unfold q; rewrite length_app; cbn; lia).
  pose proof (len_nonneg p) as Hp.
  unfold bytes_TrimRightFunc.
  destruct H as [[Hlow ->]|(Hhigh & size & Hsize & -> & Hat & Hfwd)]; cbv zeta.
  - destruct (Z.leb_spec 0 (len p)); [|lia].
    replace (Z.to_nat (len p)) with (length p) by (unfold len; lia).
    replace (utf8.at_ s (length p)) with (byte.unsigned b)
      by (unfold s; rewrite at_app_l by lia; symmetry; apply at_last).
    destruct (Z.leb_spec utf8.RuneSelf (byte.unsigned b)); [lia|].
    cbn [andb].
    replace (Z.to_nat (len p + 1)) with (length q) by (unfold len; lia).
    apply firstn_app_all.
  - set (i := len q - size) in *.
    assert (Hi : (Z.to_nat i < length q)%nat) by (unfold i, len in *; lia).
    destruct (Z.leb_spec 0 i); [|unfold i in *; lia].
    unfold s at 1. rewrite at_app_l by exact Hi.
    destruct (Z.leb_spec utf8.RuneSelf (utf8.at_ q (Z.to_nat i))); [|lia].
    cbn [andb]. unfold s at 1.
    rewrite skipn_app.
    replace (Z.to_nat i - length q)%nat with 0%nat by lia.
    cbn [skipn]. rewrite Hfwd.
    replace (Z.to_nat (i + size)) with (length q) by (unfold i, len; lia).
    apply firstn_app_all.
Qed.

(** Every buffer is a run of zero bytes, or ends in a byte other than zero
    followed by a run of zero bytes. *)
Lemma trailing_zeros (s : bytes) :
  (exists n, s = repeat Byte.x00 n) \/
  (exists p b n, b <> Byte.x00 /\ s = (p ++ [b]) ++ repeat Byte.x00 n).
Proof.
  induction s as [|c s IH] using rev_ind.
  - left. now exists 0%nat.
  - destruct (Byte.byte_eq_dec c Byte.x00) as [->|Hc].
    + destruct IH as [[n ->]|(p & b & n & Hb & ->)].
      * left. exists (S n). now rewrite <- repeat_cons.
      * right. exists p, b, (S n). split; [exact Hb|].
        now rewrite <- app_assoc, <- repeat_cons.
    + right. exists s, c, 0%nat. split; [exact Hc|]. now rewrite app_nil_r.
Qed.

Lemma endsWithZero_app (p : bytes) (b : byte) :
  endsWithZero (p ++ [b]) = true <-> b = Byte.x00.
Proof.
  unfold endsWithZero. rewrite rev_app_distr. cbn [rev app].
  destruct (Byte.byte_eq_dec b Byte.x00) as [->|Hb]; [tauto|].
  split; [|tauto]. destruct b; congruence.
Qed.

Lemma ZeroUnPadding_fixed (s : bytes) :
  endsWithZero s = false -> ZeroUnPadding s = s.
Proof.
  intros He.
  destruct s as [|b p _] using rev_ind; [reflexivity|].
  assert (Hb : b <> Byte.x00).
  { intros ->. now rewrite (proj2 (endsWithZero_app p Byte.x00) eq_refl) in He. }
  pose proof (TrimRightFunc_nonzero p b 0 Hb) as H.
  cbn [repeat] in H. rewrite app_nil_r in H. exact H.
Qed.

Lemma ZeroUnPadding_app_zeros (s : bytes) (n : nat) :
  ZeroUnPadding (s ++ repeat Byte.x00 n) = ZeroUnPadding s.
Proof.
  unfold ZeroUnPadding. change (fun r : Z => r =? 0) with isZero.
  destruct (trailing_zeros s) as [[m ->]|(p & b & m & Hb & ->)].
  - now rewrite <- repeat_app, !TrimRightFunc_zeros.
  - now rewrite <- app_assoc, <- repeat_app, !TrimRightFunc_nonzero.
Qed.

Lemma ZeroUnPadding_ends (s : bytes) : endsWithZero (ZeroUnPadding s) = false.
Proof.
  unfold ZeroUnPadding. change (fun r : Z => r =? 0) with isZero.
  destruct (trailing_zeros s) as [[m ->]|(p & b & m & Hb & ->)].
  - now rewrite TrimRightFunc_zeros.
  - rewrite TrimRightFunc_nonzero by exact Hb.
    destruct (endsWithZero (p ++ [b])) eqn:E; [|reflexivity].
    now apply endsWithZero_app in E.
Qed.

Lemma ZeroUnPadding_prefix (s : bytes) :
  exists n, s = ZeroUnPadding s ++ repeat Byte.x00 n.
Proof.
  unfold ZeroUnPadding. change (fun r : Z => r =? 0) with isZero.
  destruct (trailing_zeros s) as [[m ->]|(p & b & m & Hb & ->)].
  - exists m. now rewrite TrimRightFunc_zeros.
  - exists m. now rewrite TrimRightFunc_nonzero.
Qed.

(** ** Computations, slices and blocks *)

Lemma snd_bind {A B : Type} (m : M A) (f : A -> M B) :
  snd (bind m f) = obind (snd m) (fun a => snd (f a)).
Proof.
  destruct m as [t [a| |]]; cbn; [|reflexivity..].
  now destruct (f a).
Qed.

Lemma bind_lift_Ok {A B : Type} (a : A) (f : A -> M B) :
  bind (lift (Ok a)) f = f a.
Proof. cbn. now destruct (f a). Qed.

Lemma bind_Ok {A B : Type} (t : list call) (a : A) (f : A -> M B) :
  bind (t, Ok a) f = (t ++ fst (f a), snd (f a)).
Proof. cbn. now destruct (f a). Qed.

Lemma slice_to_ok (s : bytes) (h : Z) :
  0 <= h <= len s -> slice_to s h = Ok (firstn (Z.to_nat h) s).
Proof.
  intros Hh. unfold slice_to.
  destruct (Z.ltb_spec h 0); [lia|].
  destruct (Z.ltb_spec (len s) h); [lia|]. reflexivity.
Qed.

Lemma slice_from_ok (s : bytes) (l : Z) :
  0 <= l <= len s -> slice_from s l = Ok (skipn (Z.to_nat l) s).
Proof.
  intros Hl. unfold slice_from.
  destruct (Z.ltb_spec l 0); [lia|].
  destruct (Z.ltb_spec (len s) l); [lia|]. reflexivity.
Qed.

Lemma len_firstn (s : bytes) (n : nat) :
  (n <= length s)%nat -> len (firstn n s) = Z.of_nat n.
Proof. intros H. unfold len. rewrite length_firstn. lia. Qed.

Lemma Block_Encrypt_ok (b : Block) (dst src : bytes) :
  BlockSize b <= len src -> BlockSize b <= len dst ->
  Block_Encrypt b dst src =
  ([EncryptBlock (firstn (Z.to_nat (BlockSize b)) src)],
   Ok (encryptBlock b (firstn (Z.to_nat (BlockSize b)) src)
       ++ skipn (Z.to_nat (BlockSize b)) dst)).
Proof.
  intros Hs Hd. unfold Block_Encrypt.
  destruct (Z.ltb_spec (len src) (BlockSize b)); [lia|].
  destruct (Z.ltb_spec (len dst) (BlockSize b)); [lia|]. reflexivity.
Qed.

Lemma Block_Decrypt_ok (b : Block) (dst src : bytes) :
  BlockSize b <= len src -> BlockSize b <= len dst ->
  Block_Decrypt b dst src =
  ([DecryptBlock (firstn (Z.to_nat (BlockSize b)) src)],
   Ok (decryptBlock b (firstn (Z.to_nat (BlockSize b)) src)
       ++ skipn (Z.to_nat (BlockSize b)) dst)).
Proof.
  intros Hs Hd. unfold Block_Decrypt.
  destruct (Z.ltb_spec (len src) (BlockSize b)); [lia|].
  destruct (Z.ltb_spec (len dst) (BlockSize b)); [lia|]. reflexivity.
Qed.

Lemma chunks_length (k n : nat) (s : bytes) : length (chunks k n s) = k.
Proof. revert s. induction k as [|k IH]; intros s; cbn; [reflexivity | now rewrite IH]. Qed.

Lemma chunks_concat (k n : nat) (s : bytes) :
  length s = (k * n)%nat -> concat (chunks k n s) = s.
Proof.
  revert s. induction k as [|k IH]; intros s Hs; cbn.
  - destruct s; [reflexivity | discriminate].
  - rewrite IH; [apply firstn_skipn|].
    rewrite length_skipn. lia.
Qed.

Lemma chunks_block_length (k n : nat) (s blk : bytes) :
  length s = (k * n)%nat -> In blk (chunks k n s) -> length blk = n.
Proof.
  revert s. induction k as [|k IH]; intros s Hs; cbn; [tauto|].
  intros [<-|Hin].
  - rewrite length_firstn. lia.
  - apply (IH (skipn n s)); [rewrite length_skipn; lia | exact Hin].
Qed.

Lemma firstn_exact (n : nat) (a t : bytes) :
  length a = n -> firstn n (a ++ t) = a.
Proof. intros <-. apply firstn_app_all. Qed.

Lemma skipn_exact (n : nat) (a t : bytes) :
  length a = n -> skipn n (a ++ t) = t.
Proof. intros <-. now rewrite skipn_app, skipn_all, Nat.sub_diag. Qed.

Lemma chunks_app (k n : nat) (blk rest : bytes) :
  length blk = n -> chunks (S k) n (blk ++ rest) = blk :: chunks k n rest.
Proof.
  intros Hb. cbn [chunks]. subst n.
  rewrite firstn_app_all.
  now rewrite skipn_app, skipn_all, Nat.sub_diag.
Qed.

(** ** The ECB adapter *)

Section ECB.

Variable x : ecb.
Let n : nat := Z.to_nat (ecb_blockSize x).

Hypothesis x_size : ecb_blockSize x = BlockSize (ecb_b x).
Hypothesis x_ok : BlockOK (ecb_b x).

Lemma ecb_n : Z.of_nat n = BlockSize (ecb_b x).
Proof. destruct x_ok as [Hpos _]. unfold n. lia. Qed.

Lemma ecbEncrypter_loop_spec (k : nat) :
  forall fuel dst src,
    length src = (k * n)%nat -> (length src <= length dst)%nat -> (k <= fuel)%nat ->
    ecbEncrypter_loop fuel x dst src =
    (map EncryptBlock (chunks k n src),
     Ok (concat (map (encryptBlock (ecb_b x)) (chunks k n src))
         ++ skipn (length src) dst)).
Proof.
  pose proof ecb_n as Hn. destruct x_ok as [Hpos Hlen].
  induction k as [|k IH]; intros fuel dst src Hs Hd Hf.
  - destruct src; [|discriminate].
    destruct fuel; reflexivity.
  - destruct fuel as [|fuel]; [lia|]. cbn [ecbEncrypter_loop].
    assert (Hls : len src = Z.of_nat (S k) * Z.of_nat n) by (unfold len; lia).
    destruct (Z.ltb_spec 0 (len src)); [|nia].
    rewrite slice_to_ok by nia. rewrite bind_lift_Ok. fold n.
    assert (Hblk : len (firstn n src) = BlockSize (ecb_b x))
      by (rewrite len_firstn; lia).
    rewrite Block_Encrypt_ok by (unfold len in *; lia).
    rewrite <- Hn, Nat2Z.id.
    rewrite (firstn_all2 (n := n) (firstn n src)) by (rewrite length_firstn; lia).
    rewrite bind_Ok.
    rewrite slice_from_ok by nia. rewrite bind_lift_Ok. fold n.
    destruct (Hlen (firstn n src) Hblk) as [He _].
    assert (He' : length (encryptBlock (ecb_b x) (firstn n src)) = n)
      by (unfold len in He; lia).
    rewrite slice_from_ok by (rewrite len_app; pose proof (len_nonneg (skipn n dst)); unfold len in *; lia).
    rewrite bind_lift_Ok. fold n.
    rewrite (skipn_exact n _ _ He'), (firstn_exact n _ _ He').
    rewrite (IH fuel (skipn n dst) (skipn n src))
      by (rewrite ?length_skipn; lia).
    cbn [bind ret fst snd chunks map concat app].
    rewrite skipn_skipn, length_skipn, app_nil_r, <- app_assoc.
    replace (length src - n + n)%nat with (length src) by lia.
    reflexivity.
Qed.

Lemma ecbDecrypter_loop_spec (k : nat) :
  forall fuel dst src,
    length src = (k * n)%nat -> (length src <= length dst)%nat -> (k <= fuel)%nat ->
    ecbDecrypter_loop fuel x dst src =
    (map DecryptBlock (chunks k n src),
     Ok (concat (map (decryptBlock (ecb_b x)) (chunks k n src))
         ++ skipn (length src) dst)).
Proof.
  pose proof ecb_n as Hn. destruct x_ok as [Hpos Hlen].
  induction k as [|k IH]; intros fuel dst src Hs Hd Hf.
  - destruct src; [|discriminate].
    destruct fuel; reflexivity.
  - destruct fuel as [|fuel]; [lia|]. cbn [ecbDecrypter_loop].
    assert (Hls : len src = Z.of_nat (S k) * Z.of_nat n) by (unfold len; lia).
    destruct (Z.ltb_spec 0 (len src)); [|nia].
    rewrite slice_to_ok by nia. rewrite bind_lift_Ok. fold n.
    assert (Hblk : len (firstn n src) = BlockSize (ecb_b x))
      by (rewrite len_firstn; lia).
    rewrite Block_Decrypt_ok by (unfold len in *; lia).
    rewrite <- Hn, Nat2Z.id.
    rewrite (firstn_all2 (n := n) (firstn n src)) by (rewrite length_firstn; lia).
    rewrite bind_Ok.
    rewrite slice_from_ok by nia. rewrite bind_lift_Ok. fold n.
    destruct (Hlen (firstn n src) Hblk) as [_ He].
    assert (He' : length (decryptBlock (ecb_b x) (firstn n src)) = n)
      by (unfold len in He; lia).
    rewrite slice_from_ok by (rewrite len_app; pose proof (len_nonneg (skipn n dst)); unfold len in *; lia).
    rewrite bind_lift_Ok. fold n.
    rewrite (skipn_exact n _ _ He'), (firstn_exact n _ _ He').
    rewrite (IH fuel (skipn n dst) (skipn n src))
      by (rewrite ?length_skipn; lia).
    cbn [bind ret fst snd chunks map concat app].
    rewrite skipn_skipn, length_skipn, app_nil_r, <- app_assoc.
    replace (length src - n + n)%nat with (length src) by lia.
    reflexivity.
Qed.


(** Both [CryptBlocks] refuse an input that is not a whole number of
    blocks before the block cipher is invoked at all. *)
Lemma ecbEncrypter_CryptBlocks_partial (dst src : bytes) :
  0 < ecb_blockSize x ->
  len src mod ecb_blockSize x <> 0 ->
  ecbEncrypter_CryptBlocks x dst src =
  ([], Panic (PanicString "crypto/cipher: input not full blocks")).
Proof.
  intros Hpos Hm.
  unfold ecbEncrypter_CryptBlocks, int_rem.
  destruct (Z.eqb_spec (ecb_blockSize x) 0); [lia|].
  rewrite bind_lift_Ok, rem_len by lia.
  destruct (Z.eqb_spec (len src mod ecb_blockSize x) 0); [lia|]. reflexivity.
Qed.

Lemma ecbDecrypter_CryptBlocks_partial (dst src : bytes) :
  0 < ecb_blockSize x ->
  len src mod ecb_blockSize x <> 0 ->
  ecbDecrypter_CryptBlocks x dst src =
  ([], Panic (PanicString "crypto/cipher: input not full blocks")).
Proof.
  intros Hpos Hm.
  unfold ecbDecrypter_CryptBlocks, int_rem.
  destruct (Z.eqb_spec (ecb_blockSize x) 0); [lia|].
  rewrite bind_lift_Ok, rem_len by lia.
  destruct (Z.eqb_spec (len src mod ecb_blockSize x) 0); [lia|]. reflexivity.
Qed.

Lemma ecbEncrypter_CryptBlocks_whole (k : nat) (dst src : bytes) :
  length src = (k * n)%nat -> (length src <= length dst)%nat ->
  ecbEncrypter_CryptBlocks x dst src =
  (map EncryptBlock (chunks k n src),
   Ok (concat (map (encryptBlock (ecb_b x)) (chunks k n src))
       ++ skipn (length src) dst)).
Proof.
  intros Hs Hd. pose proof ecb_n as Hn. destruct x_ok as [Hpos _].
  unfold ecbEncrypter_CryptBlocks, int_rem.
  destruct (Z.eqb_spec (ecb_blockSize x) 0); [lia|].
  rewrite bind_lift_Ok, rem_len by lia.
  assert (Hls : len src = Z.of_nat k * ecb_blockSize x) by (unfold len; nia).
  rewrite Hls, Z.mod_mul by lia. cbn [Z.eqb negb]. rewrite <- Hls.
  destruct (Z.ltb_spec (len dst) (len src)); [unfold len in *; lia|].
  apply ecbEncrypter_loop_spec; [exact Hs | exact Hd|].
  rewrite Hs. assert (0 < n)%nat by lia. nia.
Qed.

Lemma ecbDecrypter_CryptBlocks_whole (k : nat) (dst src : bytes) :
  length src = (k * n)%nat -> (length src <= length dst)%nat ->
  ecbDecrypter_CryptBlocks x dst src =
  (map DecryptBlock (chunks k n src),
   Ok (concat (map (decryptBlock (ecb_b x)) (chunks k n src))
       ++ skipn (length src) dst)).
Proof.
  intros Hs Hd. pose proof ecb_n as Hn. destruct x_ok as [Hpos _].
  unfold ecbDecrypter_CryptBlocks, int_rem.
  destruct (Z.eqb_spec (ecb_blockSize x) 0); [lia|].
  rewrite bind_lift_Ok, rem_len by lia.
  assert (Hls : len src = Z.of_nat k * ecb_blockSize x) by (unfold len; nia).
  rewrite Hls, Z.mod_mul by lia. cbn [Z.eqb negb]. rewrite <- Hls.
  destruct (Z.ltb_spec (len dst) (len src)); [unfold len in *; lia|].
  apply ecbDecrypter_loop_spec; [exact Hs | exact Hd|].
  rewrite Hs. assert (0 < n)%nat by lia. nia.
Qed.

End ECB.

(** ** CBC *)

Lemma byte_xor_involutive (a b : byte) : byte.xor (byte.xor a b) b = a.
Proof.
  apply byte.unsigned_inj. unfold byte.xor.
  rewrite !byte.unsigned_of_Z. unfold byte.wrap.
  rewrite <- (byte.wrap_unsigned a) at 2. unfold byte.wrap.
  rewrite <- !Z.land_ones by lia.
  apply Z.bits_inj'. intros k Hk.
  rewrite !Z.land_spec, !Z.lxor_spec, !Z.land_spec, !Z.lxor_spec.
  destruct (Z.testbit (byte.unsigned a) k), (Z.testbit (byte.unsigned b) k),
    (Z.testbit (Z.ones 8) k); reflexivity.
Qed.

Lemma xorBytes_length (a b : bytes) :
  length (xorBytes a b) = Nat.min (length a) (length b).
Proof.
  revert b. induction a as [|x a IH]; intros [|y b]; cbn; try reflexivity.
  now rewrite IH.
Qed.

Lemma xorBytes_involutive (a b : bytes) :
  (length a <= length b)%nat -> xorBytes (xorBytes a b) b = a.
Proof.
  revert b. induction a as [|x a IH]; intros [|y b] H; cbn in *; try reflexivity; [lia|].
  rewrite byte_xor_involutive, IH by lia. reflexivity.
Qed.

Section CBC.

Variable x : cbc.
Let n : nat := Z.to_nat (cbc_blockSize x).
Let E : bytes -> bytes := encryptBlock (cbc_b x).
Let D : bytes -> bytes := decryptBlock (cbc_b x).

Hypothesis x_size : cbc_blockSize x = BlockSize (cbc_b x).
Hypothesis x_ok : BlockOK (cbc_b x).

Lemma cbc_n : Z.of_nat n = BlockSize (cbc_b x).
Proof. destruct x_ok as [Hpos _]. unfold n. lia. Qed.

Lemma cbc_E_length (blk : bytes) : length blk = n -> length (E blk) = n.
Proof.
  intros Hb. pose proof cbc_n as Hn. destruct x_ok as [_ Hlen].
  destruct (Hlen blk) as [He _]; unfold len in *; [lia|]. unfold E. lia.
Qed.

Lemma cbc_D_length (blk : bytes) : length blk = n -> length (D blk) = n.
Proof.
  intros Hb. pose proof cbc_n as Hn. destruct x_ok as [_ Hlen].
  destruct (Hlen blk) as [_ Hd]; unfold len in *; [lia|]. unfold D. lia.
Qed.

Lemma cbcEncrypter_loop_spec (k : nat) :
  forall fuel iv dst src,
    length iv = n -> length src = (k * n)%nat ->
    (length src <= length dst)%nat -> (k <= fuel)%nat ->
    snd (cbcEncrypter_loop fuel x iv dst src) =
    Ok (cbc_encrypt_blocks E iv (chunks k n src) ++ skipn (length src) dst).
Proof.
  pose proof cbc_n as Hn. destruct x_ok as [Hpos _].
  induction k as [|k IH]; intros fuel iv dst src Hiv Hs Hd Hf.
  - destruct src; [|discriminate]. destruct fuel; reflexivity.
  - destruct fuel as [|fuel]; [lia|]. cbn [cbcEncrypter_loop].
    assert (Hls : len src = Z.of_nat (S k) * Z.of_nat n) by (unfold len; lia).
    destruct (Z.ltb_spec 0 (len src)); [|nia].
    cbv zeta. fold n.
    set (mixed := xorBytes (firstn n src) iv).
    assert (Hm : length mixed = n)
      by (unfold mixed; rewrite xorBytes_length, length_firstn; lia).
    rewrite Block_Encrypt_ok by (unfold len in *; lia).
    rewrite <- Hn, Nat2Z.id, (firstn_all2 (n := n) mixed) by lia.
    rewrite bind_Ok. cbn [snd].
    pose proof (cbc_E_length mixed Hm) as He. fold E.
    rewrite (skipn_exact n _ _ He), (firstn_exact n _ _ He).
    rewrite snd_bind, (IH fuel (E mixed) (skipn n dst) (skipn n src))
      by (rewrite ?length_skipn; lia).
    cbn [obind ret snd chunks cbc_encrypt_blocks]. fold mixed.
    rewrite skipn_skipn, length_skipn, <- app_assoc.
    replace (length src - n + n)%nat with (length src) by lia.
    reflexivity.
Qed.

Lemma cbcDecrypter_loop_spec (k : nat) :
  forall fuel iv dst src,
    length iv = n -> length src = (k * n)%nat ->
    (length src <= length dst)%nat -> (k <= fuel)%nat ->
    snd (cbcDecrypter_loop fuel x iv dst src) =
    Ok (cbc_decrypt_blocks D iv (chunks k n src) ++ skipn (length src) dst).
Proof.
  pose proof cbc_n as Hn. destruct x_ok as [Hpos _].
  induction k as [|k IH]; intros fuel iv dst src Hiv Hs Hd Hf.
  - destruct src; [|discriminate]. destruct fuel; reflexivity.
  - destruct fuel as [|fuel]; [lia|]. cbn [cbcDecrypter_loop].
    assert (Hls : len src = Z.of_nat (S k) * Z.of_nat n) by (unfold len; lia).
    destruct (Z.ltb_spec 0 (len src)); [|nia].
    cbv zeta. fold n.
    rewrite Block_Decrypt_ok by (unfold len in *; nia).
    rewrite <- Hn, Nat2Z.id.
    rewrite bind_Ok. cbn [snd].
    assert (Hc : length (firstn n src) = n) by (rewrite length_firstn; lia).
    pose proof (cbc_D_length _ Hc) as Hd'. fold D.
    rewrite (skipn_exact n _ _ Hd'), (firstn_exact n _ _ Hd').
    rewrite snd_bind, (IH fuel (firstn n src) (skipn n dst) (skipn n src))
      by (rewrite ?length_skipn; lia).
    cbn [obind ret snd chunks cbc_decrypt_blocks].
    rewrite skipn_skipn, length_skipn, <- app_assoc.
    replace (length src - n + n)%nat with (length src) by lia.
    reflexivity.
Qed.

Lemma cbcEncrypter_CryptBlocks_whole (k : nat) (dst src : bytes) :
  length (cbc_iv x) = n -> length src = (k * n)%nat -> (length src <= length dst)%nat ->
  snd (cbcEncrypter_CryptBlocks x dst src) =
  Ok (cbc_encrypt_blocks E (cbc_iv x) (chunks k n src) ++ skipn (length src) dst).
Proof.
  intros Hiv Hs Hd. pose proof cbc_n as Hn. destruct x_ok as [Hpos _].
  unfold cbcEncrypter_CryptBlocks, int_rem.
  destruct (Z.eqb_spec (cbc_blockSize x) 0); [lia|].
  rewrite bind_lift_Ok, rem_len by lia.
  assert (Hls : len src = Z.of_nat k * cbc_blockSize x) by (unfold len; nia).
  rewrite Hls, Z.mod_mul by lia. cbn [Z.eqb negb]. rewrite <- Hls.
  destruct (Z.ltb_spec (len dst) (len src)); [unfold len in *; lia|].
  apply cbcEncrypter_loop_spec; [exact Hiv | exact Hs | exact Hd|].
  rewrite Hs. assert (0 < n)%nat by lia. nia.
Qed.

Lemma cbcDecrypter_CryptBlocks_whole (k : nat) (dst src : bytes) :
  length (cbc_iv x) = n -> length src = (k * n)%nat -> (length src <= length dst)%nat ->
  snd (cbcDecrypter_CryptBlocks x dst src) =
  Ok (cbc_decrypt_blocks D (cbc_iv x) (chunks k n src) ++ skipn (length src) dst).
Proof.
  intros Hiv Hs Hd. pose proof cbc_n as Hn. destruct x_ok as [Hpos _].
  unfold cbcDecrypter_CryptBlocks, int_rem.
  destruct (Z.eqb_spec (cbc_blockSize x) 0); [lia|].
  rewrite bind_lift_Ok, rem_len by lia.
  assert (Hls : len src = Z.of_nat k * cbc_blockSize x) by (unfold len; nia).
  rewrite Hls, Z.mod_mul by lia. cbn [Z.eqb negb]. rewrite <- Hls.
  destruct (Z.ltb_spec (len dst) (len src)); [unfold len in *; lia|].
  apply cbcDecrypter_loop_spec; [exact Hiv | exact Hs | exact Hd|].
  rewrite Hs. assert (0 < n)%nat by lia. nia.
Qed.

Lemma cbcEncrypter_CryptBlocks_partial (dst src : bytes) :
  0 < cbc_blockSize x ->
  len src mod cbc_blockSize x <> 0 ->
  cbcEncrypter_CryptBlocks x dst src =
  ([], Panic (PanicString "crypto/cipher: input not full blocks")).
Proof.
  intros Hpos Hm.
  unfold cbcEncrypter_CryptBlocks, int_rem.
  destruct (Z.eqb_spec (cbc_blockSize x) 0); [lia|].
  rewrite bind_lift_Ok, rem_len by lia.
  destruct (Z.eqb_spec (len src mod cbc_blockSize x) 0); [lia|]. reflexivity.
Qed.

End CBC.

(** ** Decrypting what was encrypted, block by block *)

Lemma cbc_encrypt_blocks_length (E : bytes -> bytes) (n : nat) :
  (forall blk, length blk = n -> length (E blk) = n) ->
  forall k iv src,
    length iv = n -> length src = (k * n)%nat ->
    length (cbc_encrypt_blocks E iv (chunks k n src)) = (k * n)%nat.
Proof.
  intros HE. induction k as [|k IH]; intros iv src Hiv Hs; [reflexivity|].
  cbn [chunks cbc_encrypt_blocks].
  assert (Hm : length (xorBytes (firstn n src) iv) = n)
    by (rewrite xorBytes_length, length_firstn; lia).
  rewrite length_app, HE, IH; rewrite ?length_skipn, ?HE; lia.
Qed.

Lemma cbc_blocks_roundtrip (E D : bytes -> bytes) (n : nat) :
  (forall blk, length blk = n -> length (E blk) = n) ->
  (forall blk, length blk = n -> D (E blk) = blk) ->
  forall k iv src,
    length iv = n -> length src = (k * n)%nat ->
    cbc_decrypt_blocks D iv (chunks k n (cbc_encrypt_blocks E iv (chunks k n src))) = src.
Proof.
  intros HE HD. induction k as [|k IH]; intros iv src Hiv Hs.
  - destruct src; [reflexivity | discriminate].
  - change (chunks (S k) n src) with (firstn n src :: chunks k n (skipn n src)).
    set (p := firstn n src).
    assert (Hp : length p = n) by (unfold p; rewrite length_firstn; lia).
    assert (Hm : length (xorBytes p iv) = n) by (rewrite xorBytes_length; lia).
    cbn [cbc_encrypt_blocks].
    rewrite chunks_app by now apply HE.
    cbn [cbc_decrypt_blocks].
    rewrite HD, xorBytes_involutive by lia.
    rewrite IH; [apply firstn_skipn | now apply HE | rewrite length_skipn; lia].
Qed.

Lemma chunks_of_blocks (n : nat) (bl : list bytes) :
  (forall blk, In blk bl -> length blk = n) ->
  chunks (length bl) n (concat bl) = bl.
Proof.
  induction bl as [|blk bl IH]; intros H; [reflexivity|].
  cbn [length concat]. rewrite chunks_app by (apply H; now left).
  rewrite IH; [reflexivity|]. intros b Hb. apply H. now right.
Qed.

Lemma ecb_blocks_roundtrip (E D : bytes -> bytes) (n : nat) :
  (forall blk, length blk = n -> length (E blk) = n) ->
  (forall blk, length blk = n -> D (E blk) = blk) ->
  forall k src,
    length src = (k * n)%nat ->
    concat (map D (chunks k n (concat (map E (chunks k n src))))) = src.
Proof.
  intros HE HD k src Hs.
  rewrite <- (chunks_length k n src) at 1.
  rewrite <- (length_map E), chunks_of_blocks.
  - rewrite map_map.
    rewrite (map_ext_in _ (fun blk => blk)), map_id; [now apply chunks_concat|].
    intros blk Hin. apply HD. now apply (chunks_block_length k n src).
  - intros blk Hin. apply in_map_iff in Hin as (b & <- & Hb).
    apply HE. now apply (chunks_block_length k n src).
Qed.

Lemma ecb_encrypt_blocks_length (E : bytes -> bytes) (n : nat) :
  (forall blk, length blk = n -> length (E blk) = n) ->
  forall k src,
    length src = (k * n)%nat ->
    length (concat (map E (chunks k n src))) = (k * n)%nat.
Proof.
  intros HE. induction k as [|k IH]; intros src Hs; [reflexivity|].
  cbn [chunks map concat].
  rewrite length_app, HE, IH; rewrite ?length_skipn, ?length_firstn; lia.
Qed.

(** ** Padding and unpadding *)

Lemma len_make (n : Z) : 0 <= n -> len (make n) = n.
Proof. intros Hn. unfold make. now apply len_repeat. Qed.

Lemma length_make_len (s : bytes) : length (make (len s)) = length s.
Proof. unfold make, len. now rewrite repeat_length, Nat2Z.id. Qed.

Lemma lastByte_app_repeat (s : bytes) (b : byte) (n : nat) :
  (0 < n)%nat -> lastByte (s ++ repeat b n) = byte.unsigned b.
Proof.
  intros Hn. unfold lastByte. destruct n as [|n]; [lia|].
  cbn [repeat]. rewrite repeat_cons, app_assoc. now rewrite last_last.
Qed.

Lemma of_Z_small (z : Z) : 0 <= z < 256 -> byte.unsigned (byte.of_Z z) = z.
Proof.
  intros Hz. rewrite byte.unsigned_of_Z. unfold byte.wrap.
  apply Z.mod_small. lia.
Qed.

(** [PKCS5Unpadding] undoes [PKCS5Padding] for a block size that fits a
    byte. *)
Lemma PKCS5_unpad_pad (s : bytes) (blockSize : Z) :
  0 < blockSize < 256 ->
  exists padded,
    PKCS5Padding s blockSize = Ok padded /\
    len padded = blockSize * (len s / blockSize + 1) /\
    PKCS5Unpadding padded blockSize = Ok s.
Proof.
  intros Hb.
  pose proof (PKCS5Padding_eq s blockSize ltac:(lia)) as Hp. cbv zeta in Hp.
  pose proof (Z.mod_pos_bound (len s) blockSize ltac:(lia)) as Hm.
  pose proof (len_nonneg s) as Hs.
  set (N := blockSize - len s mod blockSize) in *.
  eexists. split; [exact Hp|]. split.
  - rewrite len_app, len_repeat by lia. unfold N.
    rewrite (Z.div_mod (len s) blockSize) at 1 by lia. lia.
  - rewrite PKCS5Unpadding_eq by (destruct s; [destruct (Z.to_nat N) eqn:E; [lia | discriminate] | discriminate]).
    rewrite lastByte_app_repeat, of_Z_small by lia.
    cbv zeta.
    destruct (Z.ltb_spec N 1); [lia|].
    destruct (Z.ltb_spec blockSize N); [lia|]. cbn [orb].
    rewrite len_app, len_repeat by lia.
    replace (len s + N - N) with (len s) by lia.
    rewrite slice_to_ok by (rewrite len_app; pose proof (len_nonneg (repeat (byte.of_Z N) (Z.to_nat N))); lia).
    unfold len. now rewrite Nat2Z.id, firstn_app_all.
Qed.

Lemma Zero_pad_length (s : bytes) (blockSize : Z) :
  0 < blockSize < 2 ^ 63 ->
  len (s ++ repeat Byte.x00 (Z.to_nat (blockSize - len s mod blockSize))) =
  blockSize * (len s / blockSize + 1).
Proof.
  intros Hb.
  pose proof (Z.mod_pos_bound (len s) blockSize ltac:(lia)) as Hm.
  rewrite len_app, len_repeat by lia.
  rewrite (Z.div_mod (len s) blockSize) at 1 by lia. lia.
Qed.

(** ** The AES engines *)

Lemma KeySizeOK_len (key : bytes) :
  aes_KeySizeOK key = true <-> len key = 16 \/ len key = 24 \/ len key = 32.
Proof. unfold aes_KeySizeOK. lia. Qed.

Section Engines.

Context {A : AES} {L : AESLaws}.

Variable key : bytes.
Hypothesis key_ok : aes_KeySizeOK key = true.

Lemma aes_NewCipher_ok : aes_NewCipher key = Ok (aes_block key).
Proof. unfold aes_NewCipher. now rewrite key_ok. Qed.

Lemma aes_block_ok : BlockOK (aes_block key).
Proof.
  split; [reflexivity|]. cbn [aes_block BlockSize encryptBlock decryptBlock].
  unfold aes_BlockSize, len. intros blk Hb.
  rewrite aes_encrypt_length, aes_decrypt_length by (exact key_ok || lia).
  split; reflexivity.
Qed.

Lemma aes_E_length (blk : bytes) :
  length blk = 16%nat -> length (aes_encrypt key blk) = 16%nat.
Proof. now apply aes_encrypt_length. Qed.

Lemma aes_D_E (blk : bytes) :
  length blk = 16%nat -> aes_decrypt key (aes_encrypt key blk) = blk.
Proof. now apply aes_decrypt_encrypt. Qed.

(** [Encrypt] and [Decrypt] once the key and the IV have passed the checks:
    the padding [switch], then the block mode on a fresh buffer. *)
Lemma cbccrypto_Encrypt_unfold (iv : bytes) (mode : PaddingMode) (plainText : bytes) :
  len iv = 16 ->
  cbccrypto_Encrypt (NewCBCCrypto key iv mode) plainText =
  (let+ padded := lift (paddedPlainText mode key plainText) in
   let+ cipherText :=
     cbcEncrypter_CryptBlocks (newCBC (aes_block key) iv) (make (len padded)) padded in
   ret cipherText).
Proof.
  intros Hiv. unfold cbccrypto_Encrypt, NewCBCCrypto.
  cbn [cbccrypto_key cbccrypto_iv cbccrypto_mode].
  rewrite aes_NewCipher_ok, bind_lift_Ok.
  unfold NewCBCEncrypter.
  change (BlockSize (aes_block key)) with 16.
  rewrite Hiv. cbn [Z.eqb Pos.eqb negb].
  change (if String.eqb mode ZERO then ZeroPadding plainText 16
          else if String.eqb mode PKCS5 then PKCS5Padding plainText 16
          else if String.eqb mode PKCS7 then PKCS5Padding plainText (len key)
          else Ok plainText)
    with (paddedPlainText mode key plainText).
  destruct (paddedPlainText mode key plainText) as [padded| |]; [|reflexivity..].
  now rewrite !bind_lift_Ok.
Qed.

Lemma cbccrypto_Decrypt_unfold (iv : bytes) (mode : PaddingMode) (cipherText : bytes) :
  len iv = 16 ->
  cbccrypto_Decrypt (NewCBCCrypto key iv mode) cipherText =
  (let+ plainText :=
     cbcDecrypter_CryptBlocks (newCBC (aes_block key) iv) (make (len cipherText)) cipherText in
   let+ plainText := lift (unpaddedPlainText mode key plainText) in
   ret plainText).
Proof.
  intros Hiv. unfold cbccrypto_Decrypt, NewCBCCrypto.
  cbn [cbccrypto_key cbccrypto_iv cbccrypto_mode].
  rewrite aes_NewCipher_ok, bind_lift_Ok.
  unfold NewCBCDecrypter.
  change (BlockSize (aes_block key)) with 16.
  rewrite Hiv. cbn [Z.eqb Pos.eqb negb].
  rewrite bind_lift_Ok. reflexivity.
Qed.

Lemma ecbcrypto_Encrypt_unfold (mode : PaddingMode) (plainText : bytes) :
  ecbcrypto_Encrypt (NewECBCrypto key mode) plainText =
  (let+ padded := lift (paddedPlainText mode key plainText) in
   let+ cipherText :=
     ecbEncrypter_CryptBlocks (newECB (aes_block key)) (make (len padded)) padded in
   ret cipherText).
Proof.
  unfold ecbcrypto_Encrypt, NewECBCrypto.
  cbn [ecbcrypto_key ecbcrypto_mode].
  rewrite aes_NewCipher_ok, bind_lift_Ok. reflexivity.
Qed.

Lemma ecbcrypto_Decrypt_unfold (mode : PaddingMode) (cipherText : bytes) :
  ecbcrypto_Decrypt (NewECBCrypto key mode) cipherText =
  (let+ plainText :=
     ecbDecrypter_CryptBlocks (newECB (aes_block key)) (make (len cipherText)) cipherText in
   let+ plainText := lift (unpaddedPlainText mode key plainText) in
   ret plainText).
Proof.
  unfold ecbcrypto_Decrypt, NewECBCrypto.
  cbn [ecbcrypto_key ecbcrypto_mode].
  rewrite aes_NewCipher_ok, bind_lift_Ok. reflexivity.
Qed.

Lemma skipn_make (s t : bytes) : t ++ skipn (length s) (make (len s)) = t.
Proof.
  rewrite skipn_all2 by (rewrite length_make_len; lia). apply app_nil_r.
Qed.

Lemma cbccrypto_Encrypt_whole (iv : bytes) (mode : PaddingMode) (plainText padded : bytes) (k : nat) :
  len iv = 16 ->
  paddedPlainText mode key plainText = Ok padded ->
  length padded = (k * 16)%nat ->
  snd (cbccrypto_Encrypt (NewCBCCrypto key iv mode) plainText) =
  Ok (cbc_encrypt_blocks (aes_encrypt key) iv (chunks k 16 padded)).
Proof.
  intros Hiv Hp Hk.
  rewrite cbccrypto_Encrypt_unfold, Hp, bind_lift_Ok, snd_bind by exact Hiv.
  rewrite (cbcEncrypter_CryptBlocks_whole (newCBC (aes_block key) iv) eq_refl aes_block_ok k);
    [| unfold len in Hiv; cbn; lia | exact Hk | rewrite length_make_len; lia].
  cbn [obind ret snd]. f_equal. apply skipn_make.
Qed.

Lemma cbccrypto_Encrypt_partial (iv : bytes) (mode : PaddingMode) (plainText padded : bytes) :
  len iv = 16 ->
  paddedPlainText mode key plainText = Ok padded ->
  len padded mod 16 <> 0 ->
  cbccrypto_Encrypt (NewCBCCrypto key iv mode) plainText =
  ([], Panic (PanicString "crypto/cipher: input not full blocks")).
Proof.
  intros Hiv Hp Hk.
  rewrite cbccrypto_Encrypt_unfold, Hp, bind_lift_Ok by exact Hiv.
  now rewrite (cbcEncrypter_CryptBlocks_partial (newCBC (aes_block key) iv)).
Qed.

Lemma cbccrypto_Decrypt_whole (iv : bytes) (mode : PaddingMode) (cipherText : bytes) (k : nat) :
  len iv = 16 ->
  length cipherText = (k * 16)%nat ->
  snd (cbccrypto_Decrypt (NewCBCCrypto key iv mode) cipherText) =
  unpaddedPlainText mode key
    (cbc_decrypt_blocks (aes_decrypt key) iv (chunks k 16 cipherText)).
Proof.
  intros Hiv Hk.
  rewrite cbccrypto_Decrypt_unfold, snd_bind by exact Hiv.
  rewrite (cbcDecrypter_CryptBlocks_whole (newCBC (aes_block key) iv) eq_refl aes_block_ok k);
    [| unfold len in Hiv; cbn; lia | exact Hk | rewrite length_make_len; lia].
  cbn [obind]. rewrite skipn_make, snd_bind. cbn [lift snd].
  now destruct (unpaddedPlainText _ _ _).
Qed.

Lemma ecbcrypto_Encrypt_whole (mode : PaddingMode) (plainText padded : bytes) (k : nat) :
  paddedPlainText mode key plainText = Ok padded ->
  length padded = (k * 16)%nat ->
  ecbcrypto_Encrypt (NewECBCrypto key mode) plainText =
  (map EncryptBlock (chunks k 16 padded),
   Ok (concat (map (aes_encrypt key) (chunks k 16 padded)))).
Proof.
  intros Hp Hk.
  rewrite ecbcrypto_Encrypt_unfold, Hp, bind_lift_Ok.
  rewrite (ecbEncrypter_CryptBlocks_whole (newECB (aes_block key)) eq_refl aes_block_ok k);
    [| exact Hk | rewrite length_make_len; lia].
  cbn [bind ret]. rewrite skipn_make, app_nil_r. reflexivity.
Qed.

Lemma ecbcrypto_Encrypt_partial (mode : PaddingMode) (plainText padded : bytes) :
  paddedPlainText mode key plainText = Ok padded ->
  len padded mod 16 <> 0 ->
  ecbcrypto_Encrypt (NewECBCrypto key mode) plainText =
  ([], Panic (PanicString "crypto/cipher: input not full blocks")).
Proof.
  intros Hp Hk.
  rewrite ecbcrypto_Encrypt_unfold, Hp, bind_lift_Ok.
  now rewrite (ecbEncrypter_CryptBlocks_partial (newECB (aes_block key))).
Qed.

Lemma ecbcrypto_Decrypt_whole (mode : PaddingMode) (cipherText : bytes) (k : nat) :
  length cipherText = (k * 16)%nat ->
  snd (ecbcrypto_Decrypt (NewECBCrypto key mode) cipherText) =
  unpaddedPlainText mode key
    (concat (map (aes_decrypt key) (chunks k 16 cipherText))).
Proof.
  intros Hk.
  rewrite ecbcrypto_Decrypt_unfold, snd_bind.
  rewrite (ecbDecrypter_CryptBlocks_whole (newECB (aes_block key)) eq_refl aes_block_ok k);
    [| exact Hk | rewrite length_make_len; lia].
  cbn [obind snd]. rewrite skipn_make, snd_bind. cbn [lift snd].
  now destruct (unpaddedPlainText _ _ _).
Qed.

(** Decrypting what [Encrypt] returned unpads the padded plaintext. *)
Lemma cbccrypto_roundtrip_padded (iv : bytes) (mode : PaddingMode) (plainText padded : bytes) (k : nat) :
  len iv = 16 ->
  paddedPlainText mode key plainText = Ok padded ->
  length padded = (k * 16)%nat ->
  cbccrypto_roundtrip (NewCBCCrypto key iv mode) plainText =
  unpaddedPlainText mode key padded.
Proof.
  intros Hiv Hp Hk. unfold cbccrypto_roundtrip.
  rewrite (cbccrypto_Encrypt_whole iv mode plainText padded k Hiv Hp Hk).
  cbn [obind].
  assert (Hivn : length iv = 16%nat) by (unfold len in Hiv; lia).
  rewrite (cbccrypto_Decrypt_whole iv mode _ k Hiv)
    by (apply cbc_encrypt_blocks_length; auto using aes_E_length).
  now rewrite cbc_blocks_roundtrip by auto using aes_E_length, aes_D_E.
Qed.

Lemma ecbcrypto_roundtrip_padded (mode : PaddingMode) (plainText padded : bytes) (k : nat) :
  paddedPlainText mode key plainText = Ok padded ->
  length padded = (k * 16)%nat ->
  ecbcrypto_roundtrip (NewECBCrypto key mode) plainText =
  unpaddedPlainText mode key padded.
Proof.
  intros Hp Hk. unfold ecbcrypto_roundtrip.
  rewrite (ecbcrypto_Encrypt_whole mode plainText padded k Hp Hk).
  cbn [obind snd].
  rewrite (ecbcrypto_Decrypt_whole mode _ k)
    by (apply ecb_encrypt_blocks_length; auto using aes_E_length).
  now rewrite ecb_blocks_roundtrip by auto using aes_E_length, aes_D_E.
Qed.

End Engines.

(** * The properties of the specification *)

Lemma reversal_laws : @AESLaws reversal.
Proof.
  split; cbn; intros key blk _ Hb.
  - now rewrite length_rev.
  - now rewrite length_rev.
  - apply rev_involutive.
Qed.

(** ** The padding engine *)

(** C3. [PKCS5Unpadding] returns a non-empty buffer unchanged when its last
    byte is below 1 or above the block size, and [PKCS5Padding] appends to an
    input that is already a multiple of the block size one whole block of
    bytes, each holding the block size (the block size being a byte value,
    as 16, 24 and 32 are). *)
Theorem C3_pkcs5_fallback_and_full_block (buf data : bytes) (blockSize : Z) :
  (buf <> [] -> lastByte buf < 1 \/ blockSize < lastByte buf ->
   PKCS5Unpadding buf blockSize = Ok buf) /\
  (0 < blockSize < 256 -> len data mod blockSize = 0 ->
   PKCS5Padding data blockSize =
     Ok (data ++ repeat (byte.of_Z blockSize) (Z.to_nat blockSize)) /\
   byte.unsigned (byte.of_Z blockSize) = blockSize /\
   len (repeat (byte.of_Z blockSize) (Z.to_nat blockSize)) = blockSize).
Proof.
  split.
  - intros Hne Hlast. rewrite PKCS5Unpadding_eq by exact Hne. cbv zeta.
    replace ((lastByte buf <? 1) || (blockSize <? lastByte buf)) with true by lia.
    rewrite Z.sub_0_r. apply slice_to_len.
  - intros Hb Hm.
    pose proof (PKCS5Padding_eq data blockSize ltac:(lia)) as Hp. cbv zeta in Hp.
    rewrite Hm, Z.sub_0_r in Hp.
    split; [exact Hp|]. split; [apply of_Z_small; lia | apply len_repeat; lia].
Qed.

Lemma C3_pkcs5_fallback_and_full_block_witness :
  PKCS5Unpadding [Byte.x41; Byte.x42; Byte.x11] 16 = Ok [Byte.x41; Byte.x42; Byte.x11] /\
  PKCS5Unpadding [Byte.x41; Byte.x00] 16 = Ok [Byte.x41; Byte.x00] /\
  PKCS5Padding (zeros 16) 16 = Ok (zeros 16 ++ repeat Byte.x10 16).
Proof.
  split; [|split].
  - apply (proj1 (C3_pkcs5_fallback_and_full_block [Byte.x41; Byte.x42; Byte.x11] [] 16));
      [discriminate | right; vm_compute; reflexivity].
  - apply (proj1 (C3_pkcs5_fallback_and_full_block [Byte.x41; Byte.x00] [] 16));
      [discriminate | left; vm_compute; reflexivity].
  - apply (proj2 (C3_pkcs5_fallback_and_full_block [] (zeros 16) 16));
      [lia | vm_compute; reflexivity].
Defined.

(** C4. [ZeroPadding] appends [blockSize - len(data) mod blockSize] zero
    bytes, a whole block of them when the input is a multiple of the block
    size; [ZeroUnPadding] removes every trailing zero byte: what it returns
    ends in no zero byte and differs from its input by zero bytes only, so
    that unpadding a padded plaintext also removes the zero bytes the
    plaintext itself ended in. *)
Theorem C4_zero_padding (data : bytes) (blockSize : Z) :
  0 < blockSize < 2 ^ 63 ->
  ZeroPadding data blockSize =
    Ok (data ++ repeat Byte.x00 (Z.to_nat (blockSize - len data mod blockSize))) /\
  (len data mod blockSize = 0 ->
   ZeroPadding data blockSize = Ok (data ++ repeat Byte.x00 (Z.to_nat blockSize))) /\
  (exists n, data = ZeroUnPadding data ++ repeat Byte.x00 n) /\
  endsWithZero (ZeroUnPadding data) = false /\
  (forall padded, ZeroPadding data blockSize = Ok padded ->
   ZeroUnPadding padded = ZeroUnPadding data).
Proof.
  intros Hb. pose proof (ZeroPadding_eq data blockSize Hb) as Hp.
  split; [exact Hp|]. split; [|split; [|split]].
  - intros Hm. now rewrite Hp, Hm, Z.sub_0_r.
  - apply ZeroUnPadding_prefix.
  - apply ZeroUnPadding_ends.
  - intros padded Hpad. rewrite Hp in Hpad. injection Hpad as <-.
    apply ZeroUnPadding_app_zeros.
Qed.

Lemma C4_zero_padding_witness :
  ZeroPadding [Byte.x41; Byte.x00] 16 = Ok ([Byte.x41; Byte.x00] ++ zeros 14) /\
  ZeroUnPadding ([Byte.x41; Byte.x00] ++ zeros 14) = [Byte.x41].
Proof.
  destruct (C4_zero_padding [Byte.x41; Byte.x00] 16 ltac:(lia)) as (Hp & _ & _ & _ & Hu).
  split; [exact Hp|].
  exact (eq_trans (Hu _ Hp) eq_refl).
Defined.

(** ** The ECB block-mode adapter *)

(** C8. On an input that is a whole number of blocks, the encrypter and the
    decrypter of the ECB adapter invoke the block cipher once per block, in
    order, and the output is the concatenation of the images of the blocks,
    each computed from its own block alone; on any other input both panic
    and the block cipher is not invoked at all. (For AES the block size is
    16.) *)
Theorem C8_ecb_adapter (b : Block) (dst src : bytes) :
  BlockOK b ->
  let n := Z.to_nat (BlockSize b) in
  (len src mod BlockSize b <> 0 ->
   ecbEncrypter_CryptBlocks (NewECBEncrypter b) dst src =
     ([], Panic (PanicString "crypto/cipher: input not full blocks")) /\
   ecbDecrypter_CryptBlocks (NewECBDecrypter b) dst src =
     ([], Panic (PanicString "crypto/cipher: input not full blocks"))) /\
  (forall k, length src = (k * n)%nat -> (length src <= length dst)%nat ->
   ecbEncrypter_CryptBlocks (NewECBEncrypter b) dst src =
     (map EncryptBlock (chunks k n src),
      Ok (concat (map (encryptBlock b) (chunks k n src)) ++ skipn (length src) dst)) /\
   ecbDecrypter_CryptBlocks (NewECBDecrypter b) dst src =
     (map DecryptBlock (chunks k n src),
      Ok (concat (map (decryptBlock b) (chunks k n src)) ++ skipn (length src) dst))).
Proof.
  intros Hb n. split.
  - intros Hm. split.
    + apply (ecbEncrypter_CryptBlocks_partial (newECB b)); [apply Hb | exact Hm].
    + apply (ecbDecrypter_CryptBlocks_partial (newECB b)); [apply Hb | exact Hm].
  - intros k Hs Hd. split.
    + now apply (ecbEncrypter_CryptBlocks_whole (newECB b) eq_refl Hb).
    + now apply (ecbDecrypter_CryptBlocks_whole (newECB b) eq_refl Hb).
Qed.

Lemma C8_ecb_adapter_witness :
  let b := @aes_block reversal (zeros 16) in
  ecbEncrypter_CryptBlocks (NewECBEncrypter b) (make 17) (zeros 17) =
    ([], Panic (PanicString "crypto/cipher: input not full blocks")) /\
  fst (ecbDecrypter_CryptBlocks (NewECBDecrypter b) (make 32) (zeros 32)) =
    [DecryptBlock (zeros 16); DecryptBlock (zeros 16)].
Proof.
  intros b.
  pose proof (C8_ecb_adapter b (make 17) (zeros 17)
                (@aes_block_ok reversal reversal_laws (zeros 16) eq_refl)) as [Hp _].
  pose proof (C8_ecb_adapter b (make 32) (zeros 32)
                (@aes_block_ok reversal reversal_laws (zeros 16) eq_refl)) as [_ Hw].
  split.
  - apply Hp. vm_compute. discriminate.
  - destruct (Hw 2%nat eq_refl ltac:(vm_compute; lia)) as [_ Hd].
    rewrite Hd. reflexivity.
Defined.

(** ** The AES engines *)

Lemma paddedPlainText_ZERO (key plainText : bytes) :
  paddedPlainText ZERO key plainText = ZeroPadding plainText 16.
Proof. reflexivity. Qed.

Lemma paddedPlainText_PKCS5 (key plainText : bytes) :
  paddedPlainText PKCS5 key plainText = PKCS5Padding plainText 16.
Proof. reflexivity. Qed.

Lemma paddedPlainText_PKCS7 (key plainText : bytes) :
  paddedPlainText PKCS7 key plainText = PKCS5Padding plainText (len key).
Proof. reflexivity. Qed.

Lemma PKCS5Padding_shape (s : bytes) (blockSize : Z) :
  0 < blockSize < 256 ->
  exists padded,
    PKCS5Padding s blockSize = Ok padded /\
    len padded = blockSize * (len s / blockSize + 1) /\
    len s < len padded /\
    firstn (length s) padded = s.
Proof.
  intros Hb.
  pose proof (PKCS5Padding_eq s blockSize ltac:(lia)) as Hp. cbv zeta in Hp.
  pose proof (Z.mod_pos_bound (len s) blockSize ltac:(lia)) as Hm.
  eexists. split; [exact Hp|].
  rewrite len_app, len_repeat, firstn_app_all by lia.
  split; [|split; [lia | reflexivity]].
  rewrite (Z.div_mod (len s) blockSize) at 1 by lia. lia.
Qed.

(** C2. In PKCS5 mode what [Encrypt] hands to the block mode is the
    plaintext padded by [PKCS5Padding] to a multiple of the 16-byte block
    size; in PKCS7 mode it is the plaintext padded to a multiple of the key
    length; in the CBC and in the ECB engine alike. *)
Theorem C2_padding_block_sizes {A : AES} (key iv plainText : bytes) :
  aes_KeySizeOK key = true -> len iv = 16 ->
  (exists padded,
     PKCS5Padding plainText 16 = Ok padded /\
     len padded mod 16 = 0 /\ len plainText < len padded /\
     firstn (length plainText) padded = plainText /\
     cbccrypto_Encrypt (NewCBCCrypto key iv PKCS5) plainText =
       (let+ cipherText :=
          cbcEncrypter_CryptBlocks (newCBC (aes_block key) iv) (make (len padded)) padded in
        ret cipherText) /\
     ecbcrypto_Encrypt (NewECBCrypto key PKCS5) plainText =
       (let+ cipherText :=
          ecbEncrypter_CryptBlocks (newECB (aes_block key)) (make (len padded)) padded in
        ret cipherText)) /\
  (exists padded,
     PKCS5Padding plainText (len key) = Ok padded /\
     len padded mod len key = 0 /\ len plainText < len padded /\
     firstn (length plainText) padded = plainText /\
     cbccrypto_Encrypt (NewCBCCrypto key iv PKCS7) plainText =
       (let+ cipherText :=
          cbcEncrypter_CryptBlocks (newCBC (aes_block key) iv) (make (len padded)) padded in
        ret cipherText) /\
     ecbcrypto_Encrypt (NewECBCrypto key PKCS7) plainText =
       (let+ cipherText :=
          ecbEncrypter_CryptBlocks (newECB (aes_block key)) (make (len padded)) padded in
        ret cipherText)).
Proof.
  intros Hk Hiv. pose proof (proj1 (KeySizeOK_len key) Hk) as Hlen.
  split.
  - destruct (PKCS5Padding_shape plainText 16 ltac:(lia)) as (padded & Hp & Hl & Hlt & Hpre).
    exists padded. repeat split; try assumption.
    + rewrite Hl, Z.mul_comm. now apply Z.mod_mul.
    + now rewrite cbccrypto_Encrypt_unfold, paddedPlainText_PKCS5, Hp, bind_lift_Ok.
    + now rewrite ecbcrypto_Encrypt_unfold, paddedPlainText_PKCS5, Hp, bind_lift_Ok.
  - destruct (PKCS5Padding_shape plainText (len key) ltac:(lia)) as (padded & Hp & Hl & Hlt & Hpre).
    exists padded. repeat split; try assumption.
    + rewrite Hl, Z.mul_comm. apply Z.mod_mul. lia.
    + now rewrite cbccrypto_Encrypt_unfold, paddedPlainText_PKCS7, Hp, bind_lift_Ok.
    + now rewrite ecbcrypto_Encrypt_unfold, paddedPlainText_PKCS7, Hp, bind_lift_Ok.
Qed.

Lemma C2_padding_block_sizes_witness :
  exists padded,
    PKCS5Padding [Byte.x41] (len (zeros 32)) = Ok padded /\
    len padded mod len (zeros 32) = 0.
Proof.
  destruct (@C2_padding_block_sizes reversal (zeros 32) (zeros 16) [Byte.x41]
              eq_refl eq_refl) as [_ (padded & Hp & Hm & _)].
  exists padded. split; [exact Hp | exact Hm].
Defined.

(** C10. With a 24-byte key and PKCS7 padding the plaintext is padded to a
    multiple of 24 bytes, and whenever that length is not a multiple of 16
    [Encrypt] panics in the block mode, in the CBC and in the ECB engine
    alike, before the block cipher is invoked; the empty plaintext, padded
    to 24 bytes, is such a case. *)
Theorem C10_aes192_pkcs7_panics {A : AES} (key iv plainText : bytes) :
  len key = 24 -> len iv = 16 ->
  exists padded,
    PKCS5Padding plainText (len key) = Ok padded /\
    len padded = 24 * (len plainText / 24 + 1) /\
    (plainText = [] -> len padded = 24) /\
    (len padded mod 16 <> 0 ->
     cbccrypto_Encrypt (NewCBCCrypto key iv PKCS7) plainText =
       ([], Panic (PanicString "crypto/cipher: input not full blocks")) /\
     ecbcrypto_Encrypt (NewECBCrypto key PKCS7) plainText =
       ([], Panic (PanicString "crypto/cipher: input not full blocks"))).
Proof.
  intros Hk Hiv.
  assert (Hok : aes_KeySizeOK key = true) by (apply KeySizeOK_len; lia).
  destruct (PKCS5Padding_shape plainText (len key) ltac:(lia)) as (padded & Hp & Hl & _).
  exists padded. rewrite Hk in Hl.
  split; [exact Hp|]. split; [exact Hl|]. split.
  - intros ->. rewrite Hl. reflexivity.
  - intros Hm. split.
    + now apply (cbccrypto_Encrypt_partial key Hok iv PKCS7 plainText padded).
    + now apply (ecbcrypto_Encrypt_partial key Hok PKCS7 plainText padded).
Qed.

Lemma C10_aes192_pkcs7_panics_witness :
  @cbccrypto_Encrypt reversal (NewCBCCrypto (zeros 24) (zeros 16) PKCS7) [] =
    ([], Panic (PanicString "crypto/cipher: input not full blocks")) /\
  @ecbcrypto_Encrypt reversal (NewECBCrypto (zeros 24) PKCS7) [] =
    ([], Panic (PanicString "crypto/cipher: input not full blocks")).
Proof.
  destruct (@C10_aes192_pkcs7_panics reversal (zeros 24) (zeros 16) [] eq_refl eq_refl)
    as (padded & _ & _ & Hempty & Hpanic).
  apply Hpanic. rewrite (Hempty eq_refl). vm_compute. discriminate.
Defined.

(** C5, as stated, fails: with a valid (24-byte) key, a 16-byte IV and
    PKCS7 padding, [Encrypt] of the empty plaintext returns no ciphertext;
    it panics, whatever the block cipher is. *)
Lemma C5_counterexample :
  PKCS5Padding [] (len (zeros 24)) = Ok (repeat Byte.x18 24) /\
  aes_KeySizeOK (zeros 24) = true /\ len (zeros 16) = 16 /\
  (forall A : AES,
     @cbccrypto_Encrypt A (NewCBCCrypto (zeros 24) (zeros 16) PKCS7) [] =
       ([], Panic (PanicString "crypto/cipher: input not full blocks"))).
Proof.
  split; [reflexivity|]. split; [reflexivity|]. split; [reflexivity|].
  intros A. reflexivity.
Qed.

(** C5, amended. In every CBC [Encrypt] or [Decrypt] call a key of an invalid
    length yields [aes.KeySizeError], and under a valid key an IV that is not
    16 bytes long yields the error "IV length must equal block size", in both
    cases before the block cipher is invoked; otherwise, whenever the padded
    plaintext is a multiple of 16 bytes long, [Encrypt] returns a ciphertext
    of the length of the padded plaintext, and the padded plaintext is such
    in ZERO and PKCS5 mode and, with a 16- or 32-byte key, in PKCS7 mode. *)
Theorem C5_cbc_errors_and_length {A : AES} {L : AESLaws}
    (key iv : bytes) (mode : PaddingMode) (plainText cipherText : bytes) :
  (aes_KeySizeOK key = false ->
   cbccrypto_Encrypt (NewCBCCrypto key iv mode) plainText =
     ([], Err (KeySizeError (len key))) /\
   cbccrypto_Decrypt (NewCBCCrypto key iv mode) cipherText =
     ([], Err (KeySizeError (len key)))) /\
  (aes_KeySizeOK key = true -> len iv <> 16 ->
   cbccrypto_Encrypt (NewCBCCrypto key iv mode) plainText =
     ([], Err (errorString "IV length must equal block size")) /\
   cbccrypto_Decrypt (NewCBCCrypto key iv mode) cipherText =
     ([], Err (errorString "IV length must equal block size"))) /\
  (aes_KeySizeOK key = true -> len iv = 16 ->
   (forall padded,
      paddedPlainText mode key plainText = Ok padded -> len padded mod 16 = 0 ->
      exists ct,
        snd (cbccrypto_Encrypt (NewCBCCrypto key iv mode) plainText) = Ok ct /\
        len ct = len padded) /\
   (mode = ZERO \/ mode = PKCS5 \/ (mode = PKCS7 /\ len key <> 24) ->
    exists padded,
      paddedPlainText mode key plainText = Ok padded /\ len padded mod 16 = 0)).
Proof.
  split; [|split].
  - intros Hk. unfold cbccrypto_Encrypt, cbccrypto_Decrypt, aes_NewCipher.
    cbn [NewCBCCrypto cbccrypto_key]. rewrite Hk. split; reflexivity.
  - intros Hk Hiv. unfold cbccrypto_Encrypt, cbccrypto_Decrypt.
    cbn [NewCBCCrypto cbccrypto_key cbccrypto_iv].
    rewrite (aes_NewCipher_ok key Hk), !bind_lift_Ok.
    change (BlockSize (aes_block key)) with 16.
    destruct (Z.eqb_spec (len iv) 16); [contradiction|]. split; reflexivity.
  - intros Hk Hiv. split.
    + intros padded Hp Hm.
      assert (Hl : exists k, length padded = (k * 16)%nat).
      { exists (Z.to_nat (len padded / 16)).
        pose proof (Z.div_mod (len padded) 16 ltac:(lia)) as Hd.
        pose proof (len_nonneg padded).
        unfold len in *. lia. }
      destruct Hl as [k Hl].
      rewrite (cbccrypto_Encrypt_whole key Hk iv mode plainText padded k Hiv Hp Hl).
      eexists. split; [reflexivity|].
      unfold len. rewrite (cbc_encrypt_blocks_length (aes_encrypt key) 16);
        auto using aes_E_length; unfold len in Hiv; lia.
    + pose proof (proj1 (KeySizeOK_len key) Hk) as Hlen.
      intros [->|[->|[-> H24]]].
      * rewrite paddedPlainText_ZERO, ZeroPadding_eq by lia.
        eexists. split; [reflexivity|].
        rewrite Zero_pad_length, Z.mul_comm by lia. now apply Z.mod_mul.
      * destruct (PKCS5Padding_shape plainText 16 ltac:(lia)) as (padded & Hp & Hl & _).
        exists padded. split; [exact Hp|].
        rewrite Hl, Z.mul_comm. now apply Z.mod_mul.
      * destruct (PKCS5Padding_shape plainText (len key) ltac:(lia)) as (padded & Hp & Hl & _).
        exists padded. split; [exact Hp|]. rewrite Hl.
        destruct Hlen as [->|[?| ->]]; [|contradiction|].
        -- rewrite Z.mul_comm. now apply Z.mod_mul.
        -- replace (32 * (len plainText / 32 + 1)) with (2 * (len plainText / 32 + 1) * 16) by lia.
           now apply Z.mod_mul.
Qed.

Lemma C5_cbc_errors_and_length_witness :
  @cbccrypto_Encrypt reversal (NewCBCCrypto (zeros 5) (zeros 16) PKCS5) [Byte.x41] =
    ([], Err (KeySizeError 5)) /\
  @cbccrypto_Decrypt reversal (NewCBCCrypto (zeros 16) (zeros 8) PKCS5) (zeros 16) =
    ([], Err (errorString "IV length must equal block size")) /\
  exists ct,
    snd (@cbccrypto_Encrypt reversal (NewCBCCrypto (zeros 32) (zeros 16) PKCS7) [Byte.x41]) = Ok ct /\
    len ct = 32.
Proof.
  split; [|split].
  - apply (@C5_cbc_errors_and_length reversal reversal_laws
             (zeros 5) (zeros 16) PKCS5 [Byte.x41] []). reflexivity.
  - apply (@C5_cbc_errors_and_length reversal reversal_laws
             (zeros 16) (zeros 8) PKCS5 [] (zeros 16)); [reflexivity | discriminate].
  - destruct (@C5_cbc_errors_and_length reversal reversal_laws
                (zeros 32) (zeros 16) PKCS7 [Byte.x41] []) as (_ & _ & H).
    destruct (H eq_refl eq_refl) as [Hlen Hpad].
    assert (H32 : len (zeros 32) <> 24) by (vm_compute; discriminate).
    destruct (Hpad (or_intror (or_intror (conj eq_refl H32)))) as (padded & Hp & Hm).
    destruct (Hlen padded Hp Hm) as (ct & Hct & Hl).
    exists ct. split; [exact Hct|]. rewrite Hl.
    rewrite paddedPlainText_PKCS7 in Hp. vm_compute in Hp. injection Hp as <-. reflexivity.
Defined.

(** ** Unpadding after decryption *)

Lemma PKCS5Unpadding_empty (blockSize : Z) :
  PKCS5Unpadding [] blockSize = Panic (IndexOutOfRange (-1) 0).
Proof. reflexivity. Qed.

Lemma lastByte_range (s : bytes) : 0 <= lastByte s < 256.
Proof. unfold lastByte. apply byte.unsigned_range. Qed.

(** Unpadding returns when the buffer is not empty and at least one block
    long. *)
Lemma PKCS5Unpadding_returns (s : bytes) (blockSize : Z) :
  s <> [] -> blockSize <= len s ->
  exists r, PKCS5Unpadding s blockSize = Ok r.
Proof.
  intros Hs Hb. rewrite PKCS5Unpadding_eq by exact Hs. cbv zeta.
  pose proof (lastByte_range s) as Hr.
  eexists. apply slice_to_ok.
  pose proof (len_nonneg s).
  destruct ((lastByte s <? 1) || (blockSize <? lastByte s)) eqn:E; cbv iota; lia.
Qed.

Lemma cbc_decrypt_blocks_length (D : bytes -> bytes) (n : nat) :
  (forall blk, length blk = n -> length (D blk) = n) ->
  forall k iv src,
    length iv = n -> length src = (k * n)%nat ->
    length (cbc_decrypt_blocks D iv (chunks k n src)) = (k * n)%nat.
Proof.
  intros HD. induction k as [|k IH]; intros iv src Hiv Hs; [reflexivity|].
  cbn [chunks cbc_decrypt_blocks].
  assert (Hc : length (firstn n src) = n) by (rewrite length_firstn; lia).
  rewrite length_app, xorBytes_length, HD, IH;
    rewrite ?length_skipn; lia.
Qed.

Lemma whole_blocks (s : bytes) :
  len s mod 16 = 0 -> exists k, length s = (k * 16)%nat.
Proof.
  intros Hm. exists (Z.to_nat (len s / 16)).
  pose proof (Z.div_mod (len s) 16 ltac:(lia)) as Hd.
  pose proof (len_nonneg s). unfold len in *. lia.
Qed.

(** C9, as stated, fails: under a 32-byte key in PKCS7 mode, the 16-byte
    ciphertext of a block that ends in the byte 32 makes [Decrypt] panic in
    the unpadding (a slice bound of 16 - 32), in the ECB and in the CBC
    engine, whatever the block cipher is; under the reversing stand-in that
    ciphertext is the byte 32 followed by 15 zero bytes. *)
Lemma C9_counterexample :
  @ecbcrypto_Decrypt reversal (NewECBCrypto (zeros 32) PKCS7) (Byte.x20 :: zeros 15) =
    ([DecryptBlock (Byte.x20 :: zeros 15)], Panic (SliceBoundsOutOfRange (-16) 16)) /\
  (forall (A : AES) (L : AESLaws),
     let block := zeros 15 ++ [Byte.x20] in
     length (aes_encrypt (zeros 32) block) = 16%nat /\
     snd (ecbcrypto_Decrypt (NewECBCrypto (zeros 32) PKCS7)
            (aes_encrypt (zeros 32) block)) =
       Panic (SliceBoundsOutOfRange (-16) 16) /\
     snd (cbccrypto_Decrypt (NewCBCCrypto (zeros 32) (zeros 16) PKCS7)
            (aes_encrypt (zeros 32) (xorBytes block (zeros 16)))) =
       Panic (SliceBoundsOutOfRange (-16) 16)).
Proof.
  split; [reflexivity|].
  intros A L block.
  assert (Hk : aes_KeySizeOK (zeros 32) = true) by reflexivity.
  assert (He : forall blk, length blk = 16%nat ->
                 length (aes_encrypt (zeros 32) blk) = 16%nat)
    by (intros; now apply aes_encrypt_length).
  split; [now apply He|]. split.
  - rewrite (ecbcrypto_Decrypt_whole (zeros 32) Hk PKCS7 _ 1) by now rewrite He.
    cbn [chunks map concat]. rewrite firstn_all2, app_nil_r by now rewrite He.
    now rewrite aes_decrypt_encrypt.
  - rewrite (cbccrypto_Decrypt_whole (zeros 32) Hk (zeros 16) PKCS7 _ 1 eq_refl)
      by now rewrite He.
    cbn [chunks cbc_decrypt_blocks]. rewrite firstn_all2, app_nil_r by now rewrite He.
    now rewrite aes_decrypt_encrypt.
Qed.

(** C9, amended. Under a valid key (and a 16-byte IV), [Decrypt] in PKCS5 or
    PKCS7 mode panics on the empty ciphertext, on the index -1 of the empty
    buffer and without invoking the block cipher; on a non-empty ciphertext
    that is a multiple of 16 bytes and at least as long as the block size of
    the unpadding (16 in PKCS5 mode, the key length in PKCS7 mode) it returns
    a plaintext. *)
Theorem C9_decrypt_unpadding {A : AES} {L : AESLaws}
    (key iv : bytes) (mode : PaddingMode) (cipherText : bytes) :
  aes_KeySizeOK key = true -> len iv = 16 ->
  mode = PKCS5 \/ mode = PKCS7 ->
  (cbccrypto_Decrypt (NewCBCCrypto key iv mode) [] =
     ([], Panic (IndexOutOfRange (-1) 0)) /\
   ecbcrypto_Decrypt (NewECBCrypto key mode) [] =
     ([], Panic (IndexOutOfRange (-1) 0))) /\
  (cipherText <> [] -> len cipherText mod 16 = 0 ->
   (mode = PKCS7 -> len key <= len cipherText) ->
   (exists plainText,
      snd (cbccrypto_Decrypt (NewCBCCrypto key iv mode) cipherText) = Ok plainText) /\
   (exists plainText,
      snd (ecbcrypto_Decrypt (NewECBCrypto key mode) cipherText) = Ok plainText)).
Proof.
  intros Hk Hiv Hmode. split.
  - rewrite cbccrypto_Decrypt_unfold, ecbcrypto_Decrypt_unfold by assumption.
    destruct Hmode as [-> | ->]; split; reflexivity.
  - intros Hne Hm Hlong.
    destruct (whole_blocks cipherText Hm) as [k Hl].
    assert (Hivn : length iv = 16%nat) by (unfold len in Hiv; lia).
    rewrite (cbccrypto_Decrypt_whole key Hk iv mode cipherText k Hiv Hl).
    rewrite (ecbcrypto_Decrypt_whole key Hk mode cipherText k Hl).
    set (p1 := cbc_decrypt_blocks _ _ _). set (p2 := concat _).
    assert (H1 : length p1 = length cipherText).
    { unfold p1. rewrite (cbc_decrypt_blocks_length (aes_decrypt key) 16); auto.
      intros. now apply aes_decrypt_length. }
    assert (H2 : length p2 = length cipherText).
    { unfold p2. rewrite (ecb_encrypt_blocks_length (aes_decrypt key) 16); auto.
      intros. now apply aes_decrypt_length. }
    assert (Hpos : (0 < length cipherText)%nat)
      by (destruct cipherText; [congruence | cbn; lia]).
    assert (Hbs : forall p, length p = length cipherText ->
              exists r, unpaddedPlainText mode key p = Ok r).
    { intros p Hp.
      assert (p <> []) by (intros ->; cbn in Hp; lia).
      destruct Hmode as [-> | ->].
      - apply PKCS5Unpadding_returns; [assumption|].
        unfold len in *. rewrite Hp. change aes_BlockSize with 16. lia.
      - apply PKCS5Unpadding_returns; [assumption|].
        specialize (Hlong eq_refl). unfold len in *. lia. }
    split; [apply (Hbs p1 H1) | apply (Hbs p2 H2)].
Qed.

Lemma C9_decrypt_unpadding_witness :
  @cbccrypto_Decrypt reversal (NewCBCCrypto (zeros 16) (zeros 16) PKCS7) [] =
    ([], Panic (IndexOutOfRange (-1) 0)) /\
  exists plainText,
    snd (@ecbcrypto_Decrypt reversal (NewECBCrypto (zeros 32) PKCS7)
           (Byte.x20 :: zeros 31)) = Ok plainText.
Proof.
  split.
  - apply (@C9_decrypt_unpadding reversal reversal_laws (zeros 16) (zeros 16) PKCS7 []
             eq_refl eq_refl (or_intror eq_refl)).
  - apply (@C9_decrypt_unpadding reversal reversal_laws (zeros 32) (zeros 16) PKCS7
             (Byte.x20 :: zeros 31) eq_refl eq_refl (or_intror eq_refl));
      [discriminate | reflexivity | intros _; vm_compute; discriminate].
Defined.

(** ** Decrypt after Encrypt *)

(** C1, as stated, fails in two ways, whatever the block cipher is. In ZERO
    mode a plaintext that ends in a zero byte does not come back: the
    one-byte plaintext 00 comes back empty. In PKCS7 mode under a 24-byte
    key [Encrypt] may return no ciphertext at all: on the empty plaintext it
    panics. *)
Lemma C1_counterexample :
  (forall (A : AES) (L : AESLaws),
     cbccrypto_roundtrip (NewCBCCrypto (zeros 16) (zeros 16) ZERO) [Byte.x00] = Ok [] /\
     ecbcrypto_roundtrip (NewECBCrypto (zeros 16) ZERO) [Byte.x00] = Ok []) /\
  (forall A : AES,
     cbccrypto_roundtrip (NewCBCCrypto (zeros 24) (zeros 16) PKCS7) [] =
       Panic (PanicString "crypto/cipher: input not full blocks") /\
     ecbcrypto_roundtrip (NewECBCrypto (zeros 24) PKCS7) [] =
       Panic (PanicString "crypto/cipher: input not full blocks")) /\
  aes_KeySizeOK (zeros 16) = true /\ aes_KeySizeOK (zeros 24) = true /\
  len (zeros 16) = 16.
Proof.
  split; [|split; [|repeat split]].
  - intros A L.
    assert (Hk : aes_KeySizeOK (zeros 16) = true) by reflexivity.
    rewrite (cbccrypto_roundtrip_padded (zeros 16) Hk (zeros 16) ZERO [Byte.x00] (zeros 16) 1)
      by reflexivity.
    rewrite (ecbcrypto_roundtrip_padded (zeros 16) Hk ZERO [Byte.x00] (zeros 16) 1)
      by reflexivity.
    split; reflexivity.
  - intros A. split; reflexivity.
Qed.

(** C1, amended. Under a valid key and a 16-byte IV, for a plaintext of any
    length, in the CBC and in the ECB engine: in PKCS5 mode, and in PKCS7
    mode whenever the padded length, [len key * (len plainText / len key + 1)],
    is a multiple of 16, [Decrypt(Encrypt(plainText))] returns the plaintext.
    Under a 16- or 32-byte key the padded length always is such a multiple;
    under a 24-byte key it is one exactly when [len plainText / 24] is odd
    (lengths 24 to 47, 72 to 95, and so on), and in PKCS7 mode every other
    plaintext makes the round trip panic in [Encrypt]. In ZERO mode the
    round trip returns the plaintext without its trailing zero bytes, hence
    the plaintext itself when that does not end in a zero byte. *)
Theorem C1_roundtrip {A : AES} {L : AESLaws}
    (key iv : bytes) (mode : PaddingMode) (plainText : bytes) :
  aes_KeySizeOK key = true -> len iv = 16 ->
  (mode = PKCS5 \/
   (mode = PKCS7 /\ (len key * (len plainText / len key + 1)) mod 16 = 0) ->
   cbccrypto_roundtrip (NewCBCCrypto key iv mode) plainText = Ok plainText /\
   ecbcrypto_roundtrip (NewECBCrypto key mode) plainText = Ok plainText) /\
  (exists padded,
     PKCS5Padding plainText (len key) = Ok padded /\
     len padded = len key * (len plainText / len key + 1)) /\
  (len key <> 24 -> (len key * (len plainText / len key + 1)) mod 16 = 0) /\
  (len key = 24 ->
   ((len key * (len plainText / len key + 1)) mod 16 = 0 <->
    Z.odd (len plainText / 24) = true)) /\
  (mode = PKCS7 -> (len key * (len plainText / len key + 1)) mod 16 <> 0 ->
   cbccrypto_roundtrip (NewCBCCrypto key iv mode) plainText =
     Panic (PanicString "crypto/cipher: input not full blocks") /\
   ecbcrypto_roundtrip (NewECBCrypto key mode) plainText =
     Panic (PanicString "crypto/cipher: input not full blocks")) /\
  (mode = ZERO ->
   cbccrypto_roundtrip (NewCBCCrypto key iv mode) plainText = Ok (ZeroUnPadding plainText) /\
   ecbcrypto_roundtrip (NewECBCrypto key mode) plainText = Ok (ZeroUnPadding plainText)) /\
  (mode = ZERO -> endsWithZero plainText = false ->
   cbccrypto_roundtrip (NewCBCCrypto key iv mode) plainText = Ok plainText /\
   ecbcrypto_roundtrip (NewECBCrypto key mode) plainText = Ok plainText).
Proof.
  intros Hk Hiv.
  pose proof (proj1 (KeySizeOK_len key) Hk) as Hlen.
  assert (Hzero : mode = ZERO ->
    cbccrypto_roundtrip (NewCBCCrypto key iv mode) plainText = Ok (ZeroUnPadding plainText) /\
    ecbcrypto_roundtrip (NewECBCrypto key mode) plainText = Ok (ZeroUnPadding plainText)).
  { intros ->.
    pose proof (ZeroPadding_eq plainText 16 ltac:(lia)) as Hp.
    pose proof (Zero_pad_length plainText 16 ltac:(lia)) as Hl.
    set (padded := plainText ++ _) in *.
    destruct (whole_blocks padded) as [k Hkl];
      [rewrite Hl, Z.mul_comm; now apply Z.mod_mul|].
    rewrite (cbccrypto_roundtrip_padded key Hk iv ZERO plainText padded k Hiv Hp Hkl).
    rewrite (ecbcrypto_roundtrip_padded key Hk ZERO plainText padded k Hp Hkl).
    change (unpaddedPlainText ZERO key padded) with (Ok (ZeroUnPadding padded)).
    unfold padded. now rewrite ZeroUnPadding_app_zeros. }
  assert (Hpk : forall mode' bs,
      paddedPlainText mode' key plainText = PKCS5Padding plainText bs ->
      (forall p, unpaddedPlainText mode' key p = PKCS5Unpadding p bs) ->
      0 < bs < 256 -> (bs * (len plainText / bs + 1)) mod 16 = 0 ->
      cbccrypto_roundtrip (NewCBCCrypto key iv mode') plainText = Ok plainText /\
      ecbcrypto_roundtrip (NewECBCrypto key mode') plainText = Ok plainText).
  { intros mode' bs Hpad Hunpad Hbs Hm.
    destruct (PKCS5_unpad_pad plainText bs Hbs) as (padded & Hp & Hl & Hu).
    rewrite <- Hpad in Hp. rewrite <- Hunpad in Hu.
    destruct (whole_blocks padded) as [k Hkl]; [now rewrite Hl|].
    rewrite (cbccrypto_roundtrip_padded key Hk iv mode' plainText padded k Hiv Hp Hkl).
    rewrite (ecbcrypto_roundtrip_padded key Hk mode' plainText padded k Hp Hkl).
    split; exact Hu. }
  destruct (PKCS5_unpad_pad plainText (len key) ltac:(lia)) as (padded & Hp & Hl & _).
  split; [|split; [|split; [|split; [|split; [|split; [exact Hzero|]]]]]].
  - intros [-> | [-> Hm]].
    + apply (Hpk PKCS5 16); [reflexivity | reflexivity | lia |].
      rewrite Z.mul_comm. now apply Z.mod_mul.
    + apply (Hpk PKCS7 (len key)); [reflexivity | reflexivity | lia | exact Hm].
  - exists padded. split; [exact Hp | exact Hl].
  - intros H24. destruct Hlen as [Hl16 | [Hl24 | Hl32]]; [rewrite Hl16 | contradiction | rewrite Hl32].
    + rewrite Z.mul_comm. now apply Z.mod_mul.
    + replace (32 * (len plainText / 32 + 1))
        with (2 * (len plainText / 32 + 1) * 16) by lia.
      now apply Z.mod_mul.
  - intros ->. set (q := len plainText / 24). rewrite Z.odd_spec. split.
    + intros Hm. exists ((24 * (q + 1)) / 16 - q - 2).
      pose proof (Z.div_mod (24 * (q + 1)) 16 ltac:(lia)) as Hd.
      rewrite Hm in Hd. clearbody q. lia.
    + intros [m Hq].
      replace (24 * (q + 1)) with (3 * (m + 1) * 16) by lia.
      now apply Z.mod_mul.
  - intros -> Hm. rewrite <- Hl in Hm.
    unfold cbccrypto_roundtrip, ecbcrypto_roundtrip.
    rewrite (cbccrypto_Encrypt_partial key Hk iv PKCS7 plainText padded Hiv Hp Hm).
    rewrite (ecbcrypto_Encrypt_partial key Hk PKCS7 plainText padded Hp Hm).
    split; reflexivity.
  - intros Hm He. rewrite <- (ZeroUnPadding_fixed plainText He) at 2 4.
    now apply Hzero.
Qed.

Lemma C1_roundtrip_witness :
  @cbccrypto_roundtrip reversal (NewCBCCrypto (zeros 24) (zeros 16) PKCS7)
     (Byte.x41 :: zeros 23) = Ok (Byte.x41 :: zeros 23) /\
  @ecbcrypto_roundtrip reversal (NewECBCrypto (zeros 32) PKCS7)
     [Byte.x41; Byte.x00] = Ok [Byte.x41; Byte.x00] /\
  @cbccrypto_roundtrip reversal (NewCBCCrypto (zeros 24) (zeros 16) PKCS7)
     [Byte.x41] = Panic (PanicString "crypto/cipher: input not full blocks") /\
  @ecbcrypto_roundtrip reversal (NewECBCrypto (zeros 16) ZERO)
     [Byte.x00; Byte.x41] = Ok [Byte.x00; Byte.x41].
Proof.
  split; [|split; [|split]].
  - apply (proj1 (@C1_roundtrip reversal reversal_laws (zeros 24) (zeros 16) PKCS7
             (Byte.x41 :: zeros 23) eq_refl eq_refl)).
    right. split; reflexivity.
  - apply (proj1 (@C1_roundtrip reversal reversal_laws (zeros 32) (zeros 16) PKCS7
             [Byte.x41; Byte.x00] eq_refl eq_refl)).
    right. split; reflexivity.
  - apply (proj1 (proj2 (proj2 (proj2 (proj2
             (@C1_roundtrip reversal reversal_laws (zeros 24) (zeros 16) PKCS7
                [Byte.x41] eq_refl eq_refl)))))).
    + reflexivity.
    + vm_compute. discriminate.
  - apply (proj2 (proj2 (proj2 (proj2 (proj2 (proj2
             (@C1_roundtrip reversal reversal_laws (zeros 16) (zeros 16) ZERO
                [Byte.x00; Byte.x41] eq_refl eq_refl))))))); reflexivity.
Defined.

(** ** RSA keys *)

(** What [NewPrivateKeyFromPemBlock] does right: without a PEM block it
    returns the error "no PEM data is found"; a block of type
    "RSA PRIVATE KEY" goes to the PKCS#1 parser and one of type "PRIVATE KEY"
    to the PKCS#8 parser, and an RSA key or the parser's error is returned. *)
Lemma NewPrivateKeyFromPemBlock_dispatch {R : RSA} (pemBlock : bytes) :
  (pem_Decode pemBlock = None ->
   NewPrivateKeyFromPemBlock pemBlock = Err (errorString "no PEM data is found")) /\
  (forall block, pem_Decode pemBlock = Some block -> pem_Type block = RSAPKCS1 ->
   NewPrivateKeyFromPemBlock pemBlock =
   match x509_ParsePKCS1PrivateKey (pem_Bytes block) with
   | inr k => Ok {| PrivateKey_key := k |}
   | inl e => Err e
   end) /\
  (forall block, pem_Decode pemBlock = Some block -> pem_Type block = RSAPKCS8 ->
   NewPrivateKeyFromPemBlock pemBlock =
   match x509_ParsePKCS8PrivateKey (pem_Bytes block) with
   | inr (inl k) => Ok {| PrivateKey_key := k |}
   | inr (inr k) => Panic (InterfaceConversion (typeName k) "*rsa.PrivateKey")
   | inl e => Err e
   end).
Proof.
  unfold NewPrivateKeyFromPemBlock. split; [|split].
  - now intros ->.
  - intros block -> ->. cbn [String.eqb Ascii.eqb Bool.eqb RSAPKCS1].
    now destruct (x509_ParsePKCS1PrivateKey _).
  - intros block -> ->.
    change (String.eqb RSAPKCS8 RSAPKCS1) with false.
    change (String.eqb RSAPKCS8 RSAPKCS8) with true. cbv iota.
    now destruct (x509_ParsePKCS8PrivateKey _) as [e|[k|k]].
Qed.

(** C6, where the code departs from it: a PEM block of type "PRIVATE KEY"
    that parses as PKCS#8 to a key that is not an RSA key makes
    [NewPrivateKeyFromPemBlock] panic in the type assertion; no error is
    returned. So does a block of any other type, which is not parsed at
    all. *)
Theorem C6_non_rsa_key_panics {R : RSA} (pemBlock : bytes) (block : pem_Block) :
  pem_Decode pemBlock = Some block ->
  (forall k, pem_Type block = RSAPKCS8 ->
   x509_ParsePKCS8PrivateKey (pem_Bytes block) = inr (inr k) ->
   NewPrivateKeyFromPemBlock pemBlock =
     Panic (InterfaceConversion (typeName k) "*rsa.PrivateKey")) /\
  (pem_Type block <> RSAPKCS1 -> pem_Type block <> RSAPKCS8 ->
   NewPrivateKeyFromPemBlock pemBlock =
     Panic (InterfaceConversion "nil" "*rsa.PrivateKey")).
Proof.
  intros Hd. split.
  - intros k Ht Hp.
    destruct (NewPrivateKeyFromPemBlock_dispatch pemBlock) as (_ & _ & H).
    now rewrite (H block Hd Ht), Hp.
  - intros H1 H8. unfold NewPrivateKeyFromPemBlock. rewrite Hd.
    destruct (String.eqb_spec (pem_Type block) RSAPKCS1); [contradiction|].
    destruct (String.eqb_spec (pem_Type block) RSAPKCS8); [contradiction|].
    reflexivity.
Qed.

Lemma C6_non_rsa_key_panics_witness :
  @NewPrivateKeyFromPemBlock keyring [Byte.x08; Byte.x02; Byte.x2a] =
    Panic (InterfaceConversion "*ecdsa.PrivateKey" "*rsa.PrivateKey") /\
  @NewPrivateKeyFromPemBlock keyring [Byte.x03; Byte.x2a] =
    Panic (InterfaceConversion "nil" "*rsa.PrivateKey").
Proof.
  split.
  - apply (proj1 (@C6_non_rsa_key_panics keyring [Byte.x08; Byte.x02; Byte.x2a]
             {| pem_Type := "PRIVATE KEY"; pem_Bytes := [Byte.x02; Byte.x2a] |} eq_refl)
             tt eq_refl eq_refl).
  - apply (proj2 (@C6_non_rsa_key_panics keyring [Byte.x03; Byte.x2a]
             {| pem_Type := "CERTIFICATE"; pem_Bytes := [Byte.x2a] |} eq_refl));
      discriminate.
Defined.



(** * Further properties of the code *)

(** ** The padding engine *)

(** X1. For a block size that a byte can hold, [PKCS5Unpadding] undoes
    [PKCS5Padding]; the padded buffer is a whole number of blocks, begins
    with the data and is 1 to [blockSize] bytes longer. *)
Theorem X1_pkcs5_unpad_after_pad (data : bytes) (blockSize : Z) :
  0 < blockSize < 256 ->
  exists padded,
    PKCS5Padding data blockSize = Ok padded /\
    PKCS5Unpadding padded blockSize = Ok data /\
    len padded mod blockSize = 0 /\
    len data < len padded <= len data + blockSize /\
    firstn (length data) padded = data.
Proof.
  intros Hb.
  destruct (PKCS5_unpad_pad data blockSize Hb) as (padded & Hp & Hl & Hu).
  destruct (PKCS5Padding_shape data blockSize Hb) as (padded' & Hp' & _ & Hlt & Hpre).
  rewrite Hp in Hp'. injection Hp' as <-.
  exists padded. repeat split; try assumption.
  - rewrite Hl, Z.mul_comm. apply Z.mod_mul. lia.
  - rewrite Hl.
    pose proof (Z.mod_pos_bound (len data) blockSize ltac:(lia)).
    rewrite (Z.div_mod (len data) blockSize) at 2 by lia. lia.
Qed.

Lemma X1_pkcs5_unpad_after_pad_witness :
  exists padded,
    PKCS5Padding [Byte.x41; Byte.x42; Byte.x43] 24 = Ok padded /\
    PKCS5Unpadding padded 24 = Ok [Byte.x41; Byte.x42; Byte.x43].
Proof.
  destruct (X1_pkcs5_unpad_after_pad [Byte.x41; Byte.x42; Byte.x43] 24 ltac:(lia))
    as (padded & Hp & Hu & _).
  exists padded. split; [exact Hp | exact Hu].
Defined.

(** X2. Both padding functions panic on a block size that is not positive,
    as long as the padding count does not wrap around: on 0 in the
    remainder (integer divide by zero); on a negative block size in
    [bytes.Repeat], with a negative count, whenever
    [blockSize - len data % blockSize] is not below [- 2 ^ 63], which is so
    for every block size from [- 2 ^ 62] to [-1], whatever the data. *)
Theorem X2_padding_panics (data : bytes) (blockSize : Z) :
  (blockSize = 0 ->
   ZeroPadding data blockSize = Panic DivideByZero /\
   PKCS5Padding data blockSize = Panic DivideByZero) /\
  (blockSize < 0 -> - 2 ^ 63 <= blockSize - Z.rem (len data) blockSize ->
   ZeroPadding data blockSize = Panic (PanicString "bytes: negative Repeat count") /\
   PKCS5Padding data blockSize = Panic (PanicString "bytes: negative Repeat count")) /\
  (- 2 ^ 62 <= blockSize < 0 ->
   - 2 ^ 63 <= blockSize - Z.rem (len data) blockSize).
Proof.
  pose proof (len_nonneg data) as Hl.
  split; [|split].
  - intros ->. split; reflexivity.
  - intros Hb Hw. unfold ZeroPadding, PKCS5Padding, int_rem, bytes_Repeat.
    destruct (Z.eqb_spec blockSize 0); [lia|]. cbn [obind].
    pose proof (Z.rem_bound_neg_pos (len data) blockSize ltac:(lia) Hl) as Hr.
    assert (Hs : int_sub blockSize (Z.rem (len data) blockSize)
                 = blockSize - Z.rem (len data) blockSize)
      by (unfold int_sub; apply int_wrap_small; lia).
    rewrite Hs.
    destruct (Z.eqb_spec (blockSize - Z.rem (len data) blockSize) 0); [lia|].
    destruct (Z.ltb_spec (blockSize - Z.rem (len data) blockSize) 0); [|lia].
    split; reflexivity.
  - intros Hb.
    pose proof (Z.rem_bound_neg_pos (len data) blockSize ltac:(lia) Hl) as Hr. lia.
Qed.

Lemma X2_padding_panics_witness :
  PKCS5Padding [Byte.x41] 0 = Panic DivideByZero /\
  ZeroPadding [Byte.x41] (-16) = Panic (PanicString "bytes: negative Repeat count") /\
  PKCS5Padding [] (- 2 ^ 63) = Panic (PanicString "bytes: negative Repeat count").
Proof.
  split; [|split].
  - apply (proj1 (X2_padding_panics [Byte.x41] 0)). reflexivity.
  - apply (proj1 (proj2 (X2_padding_panics [Byte.x41] (-16)))).
    + lia.
    + apply (proj2 (proj2 (X2_padding_panics [Byte.x41] (-16)))). lia.
  - apply (proj1 (proj2 (X2_padding_panics [] (- 2 ^ 63)))).
    + lia.
    + vm_compute. discriminate.
Defined.

(** A run at the end of the buffer whose last byte holds its length is cut
    off. *)
Lemma PKCS5Unpadding_run (p q : bytes) (blockSize : Z) :
  q <> [] -> lastByte q = len q -> len q <= blockSize ->
  PKCS5Unpadding (p ++ q) blockSize = Ok p.
Proof.
  intros Hq Hlast Hbs.
  assert (Hne : p ++ q <> []) by (destruct p; [exact Hq | discriminate]).
  assert (Hl : lastByte (p ++ q) = lastByte q).
  { unfold lastByte. destruct q as [|b q] using rev_ind; [congruence|].
    now rewrite app_assoc, !last_last. }
  assert (Hpos : 0 < len q) by (unfold len; destruct q; [congruence | cbn; lia]).
  rewrite PKCS5Unpadding_eq by exact Hne. cbv zeta. rewrite Hl, Hlast.
  destruct (Z.ltb_spec (len q) 1); [lia|].
  destruct (Z.ltb_spec blockSize (len q)); [lia|]. cbn [orb].
  rewrite len_app. replace (len p + len q - len q) with (len p) by lia.
  pose proof (len_nonneg p).
  rewrite slice_to_ok by (rewrite len_app; lia).
  unfold len. now rewrite Nat2Z.id, firstn_app_all.
Qed.

(** X3. [PKCS5Unpadding] looks at the last byte only. When a buffer ends in
    a run [q] whose last byte holds the length of [q], at most the block
    size, the run is cut off whatever its other bytes are; and when the last
    byte [N] is between 1 and the block size but the buffer is shorter than
    [N], the slice expression panics. *)
Theorem X3_pkcs5_unpadding_last_byte_only (p q buf : bytes) (blockSize : Z) :
  (q <> [] -> lastByte q = len q -> len q <= blockSize ->
   PKCS5Unpadding (p ++ q) blockSize = Ok p) /\
  (buf <> [] -> 1 <= lastByte buf <= blockSize -> len buf < lastByte buf ->
   PKCS5Unpadding buf blockSize =
     Panic (SliceBoundsOutOfRange (len buf - lastByte buf) (len buf))).
Proof.
  split; [apply PKCS5Unpadding_run|].
  intros Hne Hr Hshort.
  rewrite PKCS5Unpadding_eq by exact Hne. cbv zeta.
  destruct (Z.ltb_spec (lastByte buf) 1); [lia|].
  destruct (Z.ltb_spec blockSize (lastByte buf)); [lia|]. cbn [orb].
  unfold slice_to.
  destruct (Z.ltb_spec (len buf - lastByte buf) 0); [reflexivity | lia].
Qed.

Lemma X3_pkcs5_unpadding_last_byte_only_witness :
  PKCS5Unpadding ([Byte.x41] ++ [Byte.xff; Byte.x00; Byte.x03]) 16 = Ok [Byte.x41] /\
  PKCS5Unpadding [Byte.x41; Byte.x10] 16 = Panic (SliceBoundsOutOfRange (-14) 2).
Proof.
  split.
  - apply (proj1 (X3_pkcs5_unpadding_last_byte_only
                    [Byte.x41] [Byte.xff; Byte.x00; Byte.x03] [] 16));
      [discriminate | reflexivity | vm_compute; discriminate].
  - apply (proj2 (X3_pkcs5_unpadding_last_byte_only [] [] [Byte.x41; Byte.x10] 16));
      [discriminate | vm_compute; split; discriminate | reflexivity].
Defined.

(** X4. [ZeroUnPadding] is idempotent, and it returns its input unchanged
    exactly when the input does not end in a zero byte; bytes of [0x80] or
    more, which are no valid UTF-8 on their own, are kept like any other. *)
Theorem X4_zero_unpadding_fixed_points (s : bytes) :
  ZeroUnPadding (ZeroUnPadding s) = ZeroUnPadding s /\
  (ZeroUnPadding s = s <-> endsWithZero s = false) /\
  (length (ZeroUnPadding s) <= length s)%nat.
Proof.
  split; [|split].
  - apply ZeroUnPadding_fixed, ZeroUnPadding_ends.
  - split.
    + intros H. rewrite <- H. apply ZeroUnPadding_ends.
    + apply ZeroUnPadding_fixed.
  - destruct (ZeroUnPadding_prefix s) as [n Hn].
    rewrite Hn at 2. rewrite length_app. lia.
Qed.

(** ** The ECB block-mode adapter *)

Lemma chunks_app_whole (k1 k2 n : nat) (s1 s2 : bytes) :
  length s1 = (k1 * n)%nat ->
  chunks (k1 + k2) n (s1 ++ s2) = chunks k1 n s1 ++ chunks k2 n s2.
Proof.
  revert s1. induction k1 as [|k1 IH]; intros s1 Hs.
  - destruct s1; [reflexivity | discriminate].
  - cbn [Nat.add chunks app].
    assert (Hn : (n <= length s1)%nat) by lia.
    rewrite firstn_app, skipn_app.
    replace (n - length s1)%nat with 0%nat by lia.
    cbn [firstn skipn]. rewrite app_nil_r.
    rewrite IH by (rewrite length_skipn; lia). reflexivity.
Qed.

Lemma BlockOK_lengths (b : Block) :
  BlockOK b ->
  let n := Z.to_nat (BlockSize b) in
  (0 < n)%nat /\
  (forall blk, length blk = n -> length (encryptBlock b blk) = n) /\
  (forall blk, length blk = n -> length (decryptBlock b blk) = n).
Proof.
  intros [Hpos Hlen] n. split; [unfold n; lia|].
  split; intros blk Hb; destruct (Hlen blk) as [He Hd];
    unfold len, n in *; lia.
Qed.

(** X5. Through the ECB adapter, decrypting what the encrypter produced from
    a whole number of blocks gives the input back, for every block cipher
    whose decryption undoes its encryption; the ciphertext is as long as the
    input. *)
Theorem X5_ecb_adapter_roundtrip (b : Block) (src : bytes) (k : nat) :
  BlockOK b ->
  (forall blk, len blk = BlockSize b -> decryptBlock b (encryptBlock b blk) = blk) ->
  length src = (k * Z.to_nat (BlockSize b))%nat ->
  exists ct,
    snd (ecbEncrypter_CryptBlocks (NewECBEncrypter b) (make (len src)) src) = Ok ct /\
    len ct = len src /\
    snd (ecbDecrypter_CryptBlocks (NewECBDecrypter b) (make (len ct)) ct) = Ok src.
Proof.
  intros Hb Hinv Hs.
  destruct (BlockOK_lengths b Hb) as (Hn & HE & HD). cbv zeta in *.
  set (n := Z.to_nat (BlockSize b)) in *.
  assert (Hinv' : forall blk, length blk = n -> decryptBlock b (encryptBlock b blk) = blk).
  { intros blk Hl. apply Hinv. destruct Hb as [Hpos _]. unfold len, n in *. lia. }
  rewrite (ecbEncrypter_CryptBlocks_whole (newECB b) eq_refl Hb k)
    by (exact Hs || (rewrite length_make_len; lia)).
  cbn [snd]. rewrite skipn_make.
  set (ct := concat _).
  assert (Hct : length ct = (k * n)%nat)
    by (apply ecb_encrypt_blocks_length; assumption).
  exists ct. split; [reflexivity|]. split; [unfold len; lia|].
  rewrite (ecbDecrypter_CryptBlocks_whole (newECB b) eq_refl Hb k)
    by (exact Hct || (rewrite length_make_len; lia)).
  cbn [snd]. rewrite skipn_make. f_equal.
  now apply ecb_blocks_roundtrip.
Qed.

Lemma X5_ecb_adapter_roundtrip_witness :
  exists ct,
    snd (ecbEncrypter_CryptBlocks (NewECBEncrypter (@aes_block reversal (zeros 16)))
           (make 32) (Byte.x41 :: zeros 31)) = Ok ct /\
    snd (ecbDecrypter_CryptBlocks (NewECBDecrypter (@aes_block reversal (zeros 16)))
           (make (len ct)) ct) = Ok (Byte.x41 :: zeros 31).
Proof.
  destruct (X5_ecb_adapter_roundtrip (@aes_block reversal (zeros 16))
              (Byte.x41 :: zeros 31) 2
              (@aes_block_ok reversal reversal_laws (zeros 16) eq_refl)
              (fun blk _ => rev_involutive blk) eq_refl) as (ct & He & _ & Hd).
  exists ct. split; [exact He | exact Hd].
Defined.

(** X6. The ECB adapter works block by block with no state carried over:
    on two inputs of whole blocks written one after the other, the encrypter
    (and the decrypter) invokes the block cipher as it does on the first and
    then as it does on the second, and its output is the two outputs one
    after the other. Equal plaintext blocks hence give equal ciphertext
    blocks. *)
Theorem X6_ecb_adapter_concatenation (b : Block) (s1 s2 : bytes) (k1 k2 : nat) :
  BlockOK b ->
  length s1 = (k1 * Z.to_nat (BlockSize b))%nat ->
  length s2 = (k2 * Z.to_nat (BlockSize b))%nat ->
  (exists t1 c1 t2 c2,
     ecbEncrypter_CryptBlocks (NewECBEncrypter b) (make (len s1)) s1 = (t1, Ok c1) /\
     ecbEncrypter_CryptBlocks (NewECBEncrypter b) (make (len s2)) s2 = (t2, Ok c2) /\
     ecbEncrypter_CryptBlocks (NewECBEncrypter b) (make (len (s1 ++ s2))) (s1 ++ s2) =
       (t1 ++ t2, Ok (c1 ++ c2))) /\
  (exists t1 c1 t2 c2,
     ecbDecrypter_CryptBlocks (NewECBDecrypter b) (make (len s1)) s1 = (t1, Ok c1) /\
     ecbDecrypter_CryptBlocks (NewECBDecrypter b) (make (len s2)) s2 = (t2, Ok c2) /\
     ecbDecrypter_CryptBlocks (NewECBDecrypter b) (make (len (s1 ++ s2))) (s1 ++ s2) =
       (t1 ++ t2, Ok (c1 ++ c2))).
Proof.
  intros Hb H1 H2.
  set (n := Z.to_nat (BlockSize b)) in *.
  assert (H12 : length (s1 ++ s2) = ((k1 + k2) * n)%nat)
    by (rewrite length_app; lia).
  split.
  - rewrite (ecbEncrypter_CryptBlocks_whole (newECB b) eq_refl Hb k1 _ s1 H1),
      (ecbEncrypter_CryptBlocks_whole (newECB b) eq_refl Hb k2 _ s2 H2),
      (ecbEncrypter_CryptBlocks_whole (newECB b) eq_refl Hb (k1 + k2) _ (s1 ++ s2) H12)
      by (rewrite length_make_len; lia).
    rewrite !skipn_make. do 4 eexists.
    split; [reflexivity|]. split; [reflexivity|].
    change (Z.to_nat (ecb_blockSize (newECB b))) with n.
    rewrite (chunks_app_whole k1 k2 n s1 s2 H1).
    now rewrite !map_app, concat_app.
  - rewrite (ecbDecrypter_CryptBlocks_whole (newECB b) eq_refl Hb k1 _ s1 H1),
      (ecbDecrypter_CryptBlocks_whole (newECB b) eq_refl Hb k2 _ s2 H2),
      (ecbDecrypter_CryptBlocks_whole (newECB b) eq_refl Hb (k1 + k2) _ (s1 ++ s2) H12)
      by (rewrite length_make_len; lia).
    rewrite !skipn_make. do 4 eexists.
    split; [reflexivity|]. split; [reflexivity|].
    change (Z.to_nat (ecb_blockSize (newECB b))) with n.
    rewrite (chunks_app_whole k1 k2 n s1 s2 H1).
    now rewrite !map_app, concat_app.
Qed.

Lemma X6_ecb_adapter_concatenation_witness :
  exists t c,
    ecbEncrypter_CryptBlocks (NewECBEncrypter (@aes_block reversal (zeros 16)))
      (make 16) (Byte.x41 :: zeros 15) = (t, Ok c) /\
    ecbEncrypter_CryptBlocks (NewECBEncrypter (@aes_block reversal (zeros 16)))
      (make 32) ((Byte.x41 :: zeros 15) ++ (Byte.x41 :: zeros 15)) = (t ++ t, Ok (c ++ c)).
Proof.
  destruct (X6_ecb_adapter_concatenation (@aes_block reversal (zeros 16))
              (Byte.x41 :: zeros 15) (Byte.x41 :: zeros 15) 1 1
              (@aes_block_ok reversal reversal_laws (zeros 16) eq_refl)
              eq_refl eq_refl) as [(t1 & c1 & t2 & c2 & E1 & E2 & E12) _].
  exists t1, c1. split; [exact E1|].
  rewrite E1 in E2. injection E2 as <- <-. exact E12.
Defined.

(** X7. The other two panics of the adapter's [CryptBlocks]: on a block
    cipher of block size 0 the remainder divides by zero, and on an output
    buffer shorter than an input of whole blocks it panics with "output
    smaller than input"; in both cases the block cipher is not invoked. *)
Theorem X7_ecb_adapter_other_panics (b : Block) (dst src : bytes) :
  (BlockSize b = 0 ->
   ecbEncrypter_CryptBlocks (NewECBEncrypter b) dst src = ([], Panic DivideByZero) /\
   ecbDecrypter_CryptBlocks (NewECBDecrypter b) dst src = ([], Panic DivideByZero)) /\
  (0 < BlockSize b -> len src mod BlockSize b = 0 -> len dst < len src ->
   ecbEncrypter_CryptBlocks (NewECBEncrypter b) dst src =
     ([], Panic (PanicString "crypto/cipher: output smaller than input")) /\
   ecbDecrypter_CryptBlocks (NewECBDecrypter b) dst src =
     ([], Panic (PanicString "crypto/cipher: output smaller than input"))).
Proof.
  unfold ecbEncrypter_CryptBlocks, ecbDecrypter_CryptBlocks, NewECBEncrypter,
    NewECBDecrypter, newECB, int_rem. cbn [ecb_blockSize].
  split.
  - intros ->. split; reflexivity.
  - intros Hpos Hm Hd.
    destruct (Z.eqb_spec (BlockSize b) 0); [lia|].
    rewrite !bind_lift_Ok, rem_len, Hm by lia. cbn [Z.eqb negb].
    destruct (Z.ltb_spec (len dst) (len src)); [|lia]. split; reflexivity.
Qed.

Lemma X7_ecb_adapter_other_panics_witness :
  ecbEncrypter_CryptBlocks (NewECBEncrypter (@aes_block reversal (zeros 16)))
    (make 16) (zeros 32) =
    ([], Panic (PanicString "crypto/cipher: output smaller than input")).
Proof.
  apply (proj2 (X7_ecb_adapter_other_panics (@aes_block reversal (zeros 16))
                  (make 16) (zeros 32))); reflexivity.
Defined.

(** ** The AES engines *)

Lemma cbcDecrypter_CryptBlocks_partial (x : cbc) (dst src : bytes) :
  0 < cbc_blockSize x ->
  len src mod cbc_blockSize x <> 0 ->
  cbcDecrypter_CryptBlocks x dst src =
  ([], Panic (PanicString "crypto/cipher: input not full blocks")).
Proof.
  intros Hpos Hm.
  unfold cbcDecrypter_CryptBlocks, int_rem.
  destruct (Z.eqb_spec (cbc_blockSize x) 0); [lia|].
  rewrite bind_lift_Ok, rem_len by lia.
  destruct (Z.eqb_spec (len src mod cbc_blockSize x) 0); [lia|]. reflexivity.
Qed.

Lemma paddedPlainText_other (mode : PaddingMode) (key plainText : bytes) :
  mode <> ZERO -> mode <> PKCS5 -> mode <> PKCS7 ->
  paddedPlainText mode key plainText = Ok plainText /\
  forall p, unpaddedPlainText mode key p = Ok p.
Proof.
  intros H0 H5 H7. unfold paddedPlainText, unpaddedPlainText.
  destruct (String.eqb_spec mode ZERO); [contradiction|].
  destruct (String.eqb_spec mode PKCS5); [contradiction|].
  destruct (String.eqb_spec mode PKCS7); [contradiction|].
  split; reflexivity.
Qed.

(** In the three padding modes the plaintext is padded by 1 to 32 bytes. *)
Lemma paddedPlainText_shape (mode : PaddingMode) (key plainText : bytes) :
  aes_KeySizeOK key = true ->
  mode = ZERO \/ mode = PKCS5 \/ mode = PKCS7 ->
  exists padded,
    paddedPlainText mode key plainText = Ok padded /\
    len plainText < len padded <= len plainText + 32.
Proof.
  intros Hk Hmode. pose proof (proj1 (KeySizeOK_len key) Hk) as Hlen.
  assert (Hpk : forall bs, 0 < bs <= 32 ->
            exists padded, PKCS5Padding plainText bs = Ok padded /\
              len plainText < len padded <= len plainText + 32).
  { intros bs Hbs.
    destruct (PKCS5Padding_shape plainText bs ltac:(lia)) as (padded & Hp & Hl & Hlt & _).
    exists padded. split; [exact Hp|]. split; [exact Hlt|].
    pose proof (Z.mod_pos_bound (len plainText) bs ltac:(lia)).
    rewrite Hl. rewrite (Z.div_mod (len plainText) bs) at 2 by lia. lia. }
  destruct Hmode as [->|[->| ->]].
  - rewrite paddedPlainText_ZERO, ZeroPadding_eq by lia.
    eexists. split; [reflexivity|].
    pose proof (Z.mod_pos_bound (len plainText) 16 ltac:(lia)).
    rewrite len_app, len_repeat by lia. lia.
  - rewrite paddedPlainText_PKCS5. apply Hpk. lia.
  - rewrite paddedPlainText_PKCS7. apply Hpk. lia.
Qed.

(** What the unpadding [switch] returns is no longer than what it is given. *)
Lemma unpaddedPlainText_shorter (mode : PaddingMode) (key p r : bytes) :
  unpaddedPlainText mode key p = Ok r -> (length r <= length p)%nat.
Proof.
  assert (Hpk : forall bs, PKCS5Unpadding p bs = Ok r -> (length r <= length p)%nat).
  { intros bs H. destruct p as [|b p]; [discriminate|].
    rewrite PKCS5Unpadding_eq in H by discriminate. cbv zeta in H.
    unfold slice_to in H. destruct (_ || _) in H; [discriminate|].
    injection H as <-. rewrite length_firstn. lia. }
  unfold unpaddedPlainText.
  destruct (String.eqb mode ZERO).
  - intros H. injection H as <-.
    destruct (ZeroUnPadding_prefix p) as [n Hn]. rewrite Hn at 2.
    rewrite length_app. lia.
  - destruct (String.eqb mode PKCS5); [apply Hpk|].
    destruct (String.eqb mode PKCS7); [apply Hpk|].
    intros H. injection H as <-. lia.
Qed.

(** X8. The ECB engine under a key of an invalid length returns
    [aes.KeySizeError] from [Encrypt] and from [Decrypt] without invoking the
    block cipher; under a valid key, when the padded plaintext is a multiple
    of 16 bytes long, [Encrypt] returns a ciphertext of that length and has
    invoked the block cipher once per 16 bytes. *)
Theorem X8_ecb_engine_errors_and_length {A : AES} {L : AESLaws}
    (key : bytes) (mode : PaddingMode) (plainText cipherText : bytes) :
  (aes_KeySizeOK key = false ->
   ecbcrypto_Encrypt (NewECBCrypto key mode) plainText =
     ([], Err (KeySizeError (len key))) /\
   ecbcrypto_Decrypt (NewECBCrypto key mode) cipherText =
     ([], Err (KeySizeError (len key)))) /\
  (aes_KeySizeOK key = true ->
   forall padded,
     paddedPlainText mode key plainText = Ok padded -> len padded mod 16 = 0 ->
     exists t ct,
       ecbcrypto_Encrypt (NewECBCrypto key mode) plainText = (t, Ok ct) /\
       len ct = len padded /\ 16 * len t = len padded).
Proof.
  split.
  - intros Hk. unfold ecbcrypto_Encrypt, ecbcrypto_Decrypt, aes_NewCipher.
    cbn [NewECBCrypto ecbcrypto_key]. rewrite Hk. split; reflexivity.
  - intros Hk padded Hp Hm.
    destruct (whole_blocks padded Hm) as [k Hl].
    rewrite (ecbcrypto_Encrypt_whole key Hk mode plainText padded k Hp Hl).
    do 2 eexists. split; [reflexivity|]. unfold len.
    rewrite (ecb_encrypt_blocks_length (aes_encrypt key) 16)
      by (auto using aes_E_length).
    rewrite length_map, chunks_length. lia.
Qed.

Lemma X8_ecb_engine_errors_and_length_witness :
  @ecbcrypto_Decrypt reversal (NewECBCrypto (zeros 20) PKCS5) (zeros 16) =
    ([], Err (KeySizeError 20)) /\
  exists t ct,
    @ecbcrypto_Encrypt reversal (NewECBCrypto (zeros 16) PKCS5) (zeros 16) = (t, Ok ct) /\
    len ct = 32 /\ 16 * len t = 32.
Proof.
  split.
  - apply (proj1 (@X8_ecb_engine_errors_and_length reversal reversal_laws
                    (zeros 20) PKCS5 [] (zeros 16))). reflexivity.
  - apply (proj2 (@X8_ecb_engine_errors_and_length reversal reversal_laws
                    (zeros 16) PKCS5 (zeros 16) []) eq_refl (zeros 16 ++ repeat Byte.x10 16));
      reflexivity.
Defined.

Lemma Decrypt_partial_block {A : AES}
    (key : bytes) (Hk : aes_KeySizeOK key = true)
    (iv : bytes) (mode : PaddingMode) (cipherText : bytes) :
  len cipherText mod 16 <> 0 ->
  ecbcrypto_Decrypt (NewECBCrypto key mode) cipherText =
    ([], Panic (PanicString "crypto/cipher: input not full blocks")) /\
  (len iv = 16 ->
   cbccrypto_Decrypt (NewCBCCrypto key iv mode) cipherText =
     ([], Panic (PanicString "crypto/cipher: input not full blocks"))).
Proof.
  intros Hm. split.
  - rewrite (ecbcrypto_Decrypt_unfold key Hk).
    now rewrite (ecbDecrypter_CryptBlocks_partial (newECB (aes_block key))).
  - intros Hiv. rewrite (cbccrypto_Decrypt_unfold key Hk) by exact Hiv.
    now rewrite (cbcDecrypter_CryptBlocks_partial (newCBC (aes_block key) iv)).
Qed.

(** X9. Under a valid key, [Decrypt] of a ciphertext that is not a multiple
    of 16 bytes long panics in the block mode, in every padding mode and
    without invoking the block cipher: the ECB engine always, the CBC engine
    once the IV has passed its check. *)
Theorem X9_decrypt_partial_block_panics {A : AES}
    (key iv : bytes) (mode : PaddingMode) (cipherText : bytes) :
  aes_KeySizeOK key = true -> len cipherText mod 16 <> 0 ->
  ecbcrypto_Decrypt (NewECBCrypto key mode) cipherText =
    ([], Panic (PanicString "crypto/cipher: input not full blocks")) /\
  (len iv = 16 ->
   cbccrypto_Decrypt (NewCBCCrypto key iv mode) cipherText =
     ([], Panic (PanicString "crypto/cipher: input not full blocks"))).
Proof.
  intros Hk Hm. now apply Decrypt_partial_block.
Qed.

Lemma X9_decrypt_partial_block_panics_witness :
  @ecbcrypto_Decrypt reversal (NewECBCrypto (zeros 16) ZERO) (zeros 17) =
    ([], Panic (PanicString "crypto/cipher: input not full blocks")).
Proof.
  assert (Hm : len (zeros 17) mod 16 <> 0) by (vm_compute; discriminate).
  exact (proj1 (@X9_decrypt_partial_block_panics reversal (zeros 16) (zeros 16) ZERO
                  (zeros 17) eq_refl Hm)).
Defined.

(** X10. Under a 16-byte key the PKCS5 and the PKCS7 mode are the same: the
    two engines return the same from [Encrypt] and from [Decrypt] in either
    mode, whatever the IV and the input. *)
Theorem X10_pkcs7_is_pkcs5_under_16_byte_key {A : AES} (key iv data : bytes) :
  len key = 16 ->
  cbccrypto_Encrypt (NewCBCCrypto key iv PKCS7) data =
    cbccrypto_Encrypt (NewCBCCrypto key iv PKCS5) data /\
  cbccrypto_Decrypt (NewCBCCrypto key iv PKCS7) data =
    cbccrypto_Decrypt (NewCBCCrypto key iv PKCS5) data /\
  ecbcrypto_Encrypt (NewECBCrypto key PKCS7) data =
    ecbcrypto_Encrypt (NewECBCrypto key PKCS5) data /\
  ecbcrypto_Decrypt (NewECBCrypto key PKCS7) data =
    ecbcrypto_Decrypt (NewECBCrypto key PKCS5) data.
Proof.
  intros Hk.
  assert (Hok : aes_KeySizeOK key = true) by (apply KeySizeOK_len; lia).
  unfold cbccrypto_Encrypt, cbccrypto_Decrypt, ecbcrypto_Encrypt, ecbcrypto_Decrypt.
  cbn [NewCBCCrypto NewECBCrypto cbccrypto_key cbccrypto_iv cbccrypto_mode
       ecbcrypto_key ecbcrypto_mode].
  rewrite (aes_NewCipher_ok key Hok), !bind_lift_Ok.
  change (BlockSize (aes_block key)) with 16. rewrite Hk.
  repeat split; reflexivity.
Qed.

Lemma X10_pkcs7_is_pkcs5_under_16_byte_key_witness :
  @cbccrypto_Encrypt reversal (NewCBCCrypto (zeros 16) (zeros 16) PKCS7) [Byte.x41] =
  @cbccrypto_Encrypt reversal (NewCBCCrypto (zeros 16) (zeros 16) PKCS5) [Byte.x41].
Proof.
  exact (proj1 (@X10_pkcs7_is_pkcs5_under_16_byte_key reversal (zeros 16) (zeros 16)
                  [Byte.x41] eq_refl)).
Defined.

(** X11. What [Encrypt] produced in PKCS5 mode, [Decrypt] in PKCS7 mode
    under the same key (and IV) returns to the plaintext, whatever the valid
    key length: the padding run is at most 16 bytes long, which the
    unpadding by the key length accepts. *)
Theorem X11_pkcs7_decrypts_pkcs5 {A : AES} {L : AESLaws} (key iv plainText : bytes) :
  aes_KeySizeOK key = true -> len iv = 16 ->
  (exists ct,
     snd (cbccrypto_Encrypt (NewCBCCrypto key iv PKCS5) plainText) = Ok ct /\
     snd (cbccrypto_Decrypt (NewCBCCrypto key iv PKCS7) ct) = Ok plainText) /\
  (exists ct,
     snd (ecbcrypto_Encrypt (NewECBCrypto key PKCS5) plainText) = Ok ct /\
     snd (ecbcrypto_Decrypt (NewECBCrypto key PKCS7) ct) = Ok plainText).
Proof.
  intros Hk Hiv. pose proof (proj1 (KeySizeOK_len key) Hk) as Hlen.
  pose proof (PKCS5Padding_eq plainText 16 ltac:(lia)) as Hp. cbv zeta in Hp.
  pose proof (Z.mod_pos_bound (len plainText) 16 ltac:(lia)) as Hm.
  set (N := 16 - len plainText mod 16) in *.
  set (q := repeat (byte.of_Z N) (Z.to_nat N)) in *.
  assert (Hq : len q = N) by (unfold q; apply len_repeat; lia).
  assert (Hl : len (plainText ++ q) mod 16 = 0).
  { rewrite len_app, Hq. unfold N.
    rewrite (Z.div_mod (len plainText) 16) at 1 by lia.
    replace (16 * (len plainText / 16) + len plainText mod 16 + (16 - len plainText mod 16))
      with ((len plainText / 16 + 1) * 16) by lia.
    now apply Z.mod_mul. }
  destruct (whole_blocks _ Hl) as [k Hkl].
  assert (Hun : unpaddedPlainText PKCS7 key (plainText ++ q) = Ok plainText).
  { change (unpaddedPlainText PKCS7 key (plainText ++ q))
      with (PKCS5Unpadding (plainText ++ q) (len key)).
    apply PKCS5Unpadding_run.
    - unfold q. destruct (Z.to_nat N) eqn:E; [lia | discriminate].
    - rewrite Hq. unfold q.
      pose proof (lastByte_app_repeat [] (byte.of_Z N) (Z.to_nat N) ltac:(lia)) as Hlast.
      cbn [app] in Hlast. rewrite Hlast.
      apply of_Z_small. lia.
    - lia. }
  assert (Hivn : length iv = 16%nat) by (unfold len in Hiv; lia).
  split; eexists.
  - rewrite (cbccrypto_Encrypt_whole key Hk iv PKCS5 plainText _ k Hiv Hp Hkl).
    split; [reflexivity|].
    rewrite (cbccrypto_Decrypt_whole key Hk iv PKCS7 _ k Hiv)
      by (apply cbc_encrypt_blocks_length; auto using aes_E_length).
    now rewrite cbc_blocks_roundtrip by auto using aes_E_length, aes_D_E.
  - rewrite (ecbcrypto_Encrypt_whole key Hk PKCS5 plainText _ k Hp Hkl). cbn [snd].
    split; [reflexivity|].
    rewrite (ecbcrypto_Decrypt_whole key Hk PKCS7 _ k)
      by (apply ecb_encrypt_blocks_length; auto using aes_E_length).
    now rewrite ecb_blocks_roundtrip by auto using aes_E_length, aes_D_E.
Qed.

Lemma X11_pkcs7_decrypts_pkcs5_witness :
  exists ct,
    snd (@cbccrypto_Encrypt reversal (NewCBCCrypto (zeros 32) (zeros 16) PKCS5) [Byte.x41]) = Ok ct /\
    snd (@cbccrypto_Decrypt reversal (NewCBCCrypto (zeros 32) (zeros 16) PKCS7) ct) = Ok [Byte.x41].
Proof.
  exact (proj1 (@X11_pkcs7_decrypts_pkcs5 reversal reversal_laws (zeros 32) (zeros 16)
                  [Byte.x41] eq_refl eq_refl)).
Defined.

(** X12. A padding mode that is none of "ZERO", "PKCS#5" and "PKCS#7" means
    no padding, the [switch] having no default: under a valid key and a
    16-byte IV, [Encrypt] of a plaintext of whole 16-byte blocks returns a
    ciphertext of the same length, from which [Decrypt] returns the plaintext
    as it was; on any other plaintext [Encrypt] panics in the block mode. *)
Theorem X12_unknown_mode_no_padding {A : AES} {L : AESLaws}
    (key iv : bytes) (mode : PaddingMode) (plainText : bytes) :
  aes_KeySizeOK key = true -> len iv = 16 ->
  mode <> ZERO -> mode <> PKCS5 -> mode <> PKCS7 ->
  (len plainText mod 16 = 0 ->
   (exists ct,
      snd (cbccrypto_Encrypt (NewCBCCrypto key iv mode) plainText) = Ok ct /\
      len ct = len plainText) /\
   cbccrypto_roundtrip (NewCBCCrypto key iv mode) plainText = Ok plainText /\
   ecbcrypto_roundtrip (NewECBCrypto key mode) plainText = Ok plainText) /\
  (len plainText mod 16 <> 0 ->
   cbccrypto_Encrypt (NewCBCCrypto key iv mode) plainText =
     ([], Panic (PanicString "crypto/cipher: input not full blocks")) /\
   ecbcrypto_Encrypt (NewECBCrypto key mode) plainText =
     ([], Panic (PanicString "crypto/cipher: input not full blocks"))).
Proof.
  intros Hk Hiv H0 H5 H7.
  destruct (paddedPlainText_other mode key plainText H0 H5 H7) as [Hp Hu].
  assert (Hivn : length iv = 16%nat) by (unfold len in Hiv; lia).
  split.
  - intros Hm. destruct (whole_blocks plainText Hm) as [k Hkl].
    split; [|split].
    + rewrite (cbccrypto_Encrypt_whole key Hk iv mode plainText _ k Hiv Hp Hkl).
      eexists. split; [reflexivity|]. unfold len.
      rewrite (cbc_encrypt_blocks_length (aes_encrypt key) 16);
        auto using aes_E_length; lia.
    + rewrite (cbccrypto_roundtrip_padded key Hk iv mode plainText _ k Hiv Hp Hkl).
      apply Hu.
    + rewrite (ecbcrypto_roundtrip_padded key Hk mode plainText _ k Hp Hkl).
      apply Hu.
  - intros Hm. split.
    + now apply (cbccrypto_Encrypt_partial key Hk iv mode plainText plainText).
    + now apply (ecbcrypto_Encrypt_partial key Hk mode plainText plainText).
Qed.

Lemma X12_unknown_mode_no_padding_witness :
  @ecbcrypto_roundtrip reversal (NewECBCrypto (zeros 16) "NONE") (Byte.x41 :: zeros 15) =
    Ok (Byte.x41 :: zeros 15) /\
  @cbccrypto_Encrypt reversal (NewCBCCrypto (zeros 16) (zeros 16) "NONE") [Byte.x41] =
    ([], Panic (PanicString "crypto/cipher: input not full blocks")).
Proof.
  assert (H0 : "NONE" <> ZERO) by discriminate.
  assert (H5 : "NONE" <> PKCS5) by discriminate.
  assert (H7 : "NONE" <> PKCS7) by discriminate.
  split.
  - apply (proj1 (@X12_unknown_mode_no_padding reversal reversal_laws (zeros 16) (zeros 16)
                    "NONE" (Byte.x41 :: zeros 15) eq_refl eq_refl H0 H5 H7)).
    reflexivity.
  - apply (proj2 (@X12_unknown_mode_no_padding reversal reversal_laws (zeros 16) (zeros 16)
                    "NONE" [Byte.x41] eq_refl eq_refl H0 H5 H7)).
    vm_compute. discriminate.
Defined.

(** X13. In the three padding modes, under a valid key and a 16-byte IV,
    whenever [Encrypt] returns a ciphertext it is a multiple of 16 bytes
    long and 1 to 32 bytes longer than the plaintext, in both engines; and
    [Encrypt] then never returns an error. *)
Theorem X13_encrypt_always_pads {A : AES} {L : AESLaws}
    (key iv : bytes) (mode : PaddingMode) (plainText : bytes) :
  aes_KeySizeOK key = true -> len iv = 16 ->
  mode = ZERO \/ mode = PKCS5 \/ mode = PKCS7 ->
  (forall ct, snd (cbccrypto_Encrypt (NewCBCCrypto key iv mode) plainText) = Ok ct ->
     len ct mod 16 = 0 /\ len plainText < len ct <= len plainText + 32) /\
  (forall ct, snd (ecbcrypto_Encrypt (NewECBCrypto key mode) plainText) = Ok ct ->
     len ct mod 16 = 0 /\ len plainText < len ct <= len plainText + 32) /\
  (forall e, snd (cbccrypto_Encrypt (NewCBCCrypto key iv mode) plainText) <> Err e) /\
  (forall e, snd (ecbcrypto_Encrypt (NewECBCrypto key mode) plainText) <> Err e).
Proof.
  intros Hk Hiv Hmode.
  destruct (paddedPlainText_shape mode key plainText Hk Hmode) as (padded & Hp & Hl).
  assert (Hivn : length iv = 16%nat) by (unfold len in Hiv; lia).
  destruct (Z.eq_dec (len padded mod 16) 0) as [Hm|Hm].
  - destruct (whole_blocks padded Hm) as [k Hkl].
    rewrite (cbccrypto_Encrypt_whole key Hk iv mode plainText padded k Hiv Hp Hkl).
    rewrite (ecbcrypto_Encrypt_whole key Hk mode plainText padded k Hp Hkl). cbn [snd].
    assert (H1 : len (cbc_encrypt_blocks (aes_encrypt key) iv (chunks k 16 padded)) = len padded).
    { unfold len. rewrite (cbc_encrypt_blocks_length (aes_encrypt key) 16);
        auto using aes_E_length; lia. }
    assert (H2 : len (concat (map (aes_encrypt key) (chunks k 16 padded))) = len padded).
    { unfold len. rewrite (ecb_encrypt_blocks_length (aes_encrypt key) 16);
        auto using aes_E_length; lia. }
    repeat split; try discriminate;
      intros; match goal with H : Ok _ = Ok _ |- _ => injection H as <- end;
      rewrite ?H1, ?H2; (exact Hm || lia).
  - rewrite (cbccrypto_Encrypt_partial key Hk iv mode plainText padded Hiv Hp Hm).
    rewrite (ecbcrypto_Encrypt_partial key Hk mode plainText padded Hp Hm). cbn [snd].
    repeat split; discriminate.
Qed.

Lemma X13_encrypt_always_pads_witness :
  exists ct,
    snd (@cbccrypto_Encrypt reversal (NewCBCCrypto (zeros 24) (zeros 16) PKCS7) (zeros 30)) = Ok ct /\
    len ct mod 16 = 0 /\ len (zeros 30) < len ct <= len (zeros 30) + 32.
Proof.
  eexists. split; [vm_compute; reflexivity|].
  apply (proj1 (@X13_encrypt_always_pads reversal reversal_laws (zeros 24) (zeros 16)
                  PKCS7 (zeros 30) eq_refl eq_refl (or_intror (or_intror eq_refl)))).
  vm_compute. reflexivity.
Defined.

(** X14. Under a valid key and a 16-byte IV, in every padding mode, whenever
    [Decrypt] returns a plaintext the ciphertext was a multiple of 16 bytes
    long and the plaintext is no longer than the ciphertext, in both
    engines; and [Decrypt] then never returns an error, not even on a
    ciphertext that no [Encrypt] produced. *)
Theorem X14_decrypt_never_grows {A : AES} {L : AESLaws}
    (key iv : bytes) (mode : PaddingMode) (cipherText : bytes) :
  aes_KeySizeOK key = true -> len iv = 16 ->
  (forall pt, snd (cbccrypto_Decrypt (NewCBCCrypto key iv mode) cipherText) = Ok pt ->
     len cipherText mod 16 = 0 /\ len pt <= len cipherText) /\
  (forall pt, snd (ecbcrypto_Decrypt (NewECBCrypto key mode) cipherText) = Ok pt ->
     len cipherText mod 16 = 0 /\ len pt <= len cipherText) /\
  (forall e, snd (cbccrypto_Decrypt (NewCBCCrypto key iv mode) cipherText) <> Err e) /\
  (forall e, snd (ecbcrypto_Decrypt (NewECBCrypto key mode) cipherText) <> Err e).
Proof.
  intros Hk Hiv.
  assert (Hivn : length iv = 16%nat) by (unfold len in Hiv; lia).
  assert (Hnoerr : forall p e, unpaddedPlainText mode key p <> Err e).
  { intros p e. unfold unpaddedPlainText, PKCS5Unpadding, index, slice_to, obind.
    repeat match goal with |- context [if ?c then _ else _] => destruct c end;
      discriminate. }
  destruct (Z.eq_dec (len cipherText mod 16) 0) as [Hm|Hm].
  - destruct (whole_blocks cipherText Hm) as [k Hkl].
    rewrite (cbccrypto_Decrypt_whole key Hk iv mode cipherText k Hiv Hkl).
    rewrite (ecbcrypto_Decrypt_whole key Hk mode cipherText k Hkl).
    assert (H1 : length (cbc_decrypt_blocks (aes_decrypt key) iv (chunks k 16 cipherText))
                 = length cipherText).
    { rewrite (cbc_decrypt_blocks_length (aes_decrypt key) 16); auto.
      intros. now apply aes_decrypt_length. }
    assert (H2 : length (concat (map (aes_decrypt key) (chunks k 16 cipherText)))
                 = length cipherText).
    { rewrite (ecb_encrypt_blocks_length (aes_decrypt key) 16); auto.
      intros. now apply aes_decrypt_length. }
    repeat split; try apply Hnoerr; try exact Hm;
      apply unpaddedPlainText_shorter in H; unfold len; lia.
  - pose proof (Decrypt_partial_block key Hk iv mode cipherText Hm) as [He Hc].
    rewrite He, (Hc Hiv). cbn [snd]. repeat split; discriminate.
Qed.

Lemma X14_decrypt_never_grows_witness :
  exists pt,
    snd (@ecbcrypto_Decrypt reversal (NewECBCrypto (zeros 16) ZERO) (Byte.x41 :: zeros 15)) = Ok pt /\
    len (Byte.x41 :: zeros 15) mod 16 = 0 /\ len pt <= len (Byte.x41 :: zeros 15).
Proof.
  eexists. split; [vm_compute; reflexivity|].
  apply (proj1 (proj2 (@X14_decrypt_never_grows reversal reversal_laws (zeros 16) (zeros 16)
                         ZERO (Byte.x41 :: zeros 15) eq_refl eq_refl))).
  vm_compute. reflexivity.
Defined.

(** X15. ZERO mode cannot tell a plaintext from the same plaintext followed
    by zero bytes that still fit its last block: under a valid key (and a
    16-byte IV) [Encrypt] returns the same for both, in both engines. *)
Theorem X15_zero_mode_collisions {A : AES} (key iv plainText : bytes) (n : nat) :
  aes_KeySizeOK key = true -> len iv = 16 ->
  len plainText mod 16 + Z.of_nat n < 16 ->
  cbccrypto_Encrypt (NewCBCCrypto key iv ZERO) (plainText ++ zeros n) =
    cbccrypto_Encrypt (NewCBCCrypto key iv ZERO) plainText /\
  ecbcrypto_Encrypt (NewECBCrypto key ZERO) (plainText ++ zeros n) =
    ecbcrypto_Encrypt (NewECBCrypto key ZERO) plainText.
Proof.
  intros Hk Hiv Hn.
  assert (Hp : paddedPlainText ZERO key (plainText ++ zeros n) =
               paddedPlainText ZERO key plainText).
  { rewrite !paddedPlainText_ZERO, !ZeroPadding_eq by lia.
    pose proof (Z.mod_pos_bound (len plainText) 16 ltac:(lia)) as Hm.
    assert (Hr : len (plainText ++ zeros n) mod 16 = len plainText mod 16 + Z.of_nat n).
    { unfold zeros. rewrite len_app.
      replace (len (repeat Byte.x00 n)) with (Z.of_nat n)
        by (unfold len; now rewrite repeat_length).
      rewrite (Z.div_mod (len plainText) 16) at 1 by lia.
      rewrite <- Z.add_assoc, Z.add_comm, Z.mul_comm, Z.mod_add by lia.
      apply Z.mod_small. lia. }
    rewrite Hr. unfold zeros. rewrite <- app_assoc, <- repeat_app.
    do 3 f_equal. lia. }
  split.
  - now rewrite !(cbccrypto_Encrypt_unfold key Hk) by exact Hiv; rewrite Hp.
  - now rewrite !(ecbcrypto_Encrypt_unfold key Hk); rewrite Hp.
Qed.

Lemma X15_zero_mode_collisions_witness :
  @ecbcrypto_Encrypt reversal (NewECBCrypto (zeros 16) ZERO) ([Byte.x41] ++ zeros 3) =
  @ecbcrypto_Encrypt reversal (NewECBCrypto (zeros 16) ZERO) [Byte.x41].
Proof.
  assert (H : len [Byte.x41] mod 16 + Z.of_nat 3 < 16) by (vm_compute; reflexivity).
  exact (proj2 (@X15_zero_mode_collisions reversal (zeros 16) (zeros 16) [Byte.x41] 3
                  eq_refl eq_refl H)).
Defined.

Lemma PKCS5_roundtrip {A : AES} {L : AESLaws} (key iv plainText : bytes) :
  aes_KeySizeOK key = true -> len iv = 16 ->
  cbccrypto_roundtrip (NewCBCCrypto key iv PKCS5) plainText = Ok plainText /\
  ecbcrypto_roundtrip (NewECBCrypto key PKCS5) plainText = Ok plainText.
Proof.
  intros Hk Hiv.
  destruct (PKCS5_unpad_pad plainText 16 ltac:(lia)) as (padded & Hp & Hl & Hu).
  destruct (whole_blocks padded) as [k Hkl];
    [rewrite Hl, Z.mul_comm; now apply Z.mod_mul|].
  rewrite (cbccrypto_roundtrip_padded key Hk iv PKCS5 plainText padded k Hiv Hp Hkl).
  rewrite (ecbcrypto_roundtrip_padded key Hk PKCS5 plainText padded k Hp Hkl).
  split; exact Hu.
Qed.

(** X16. In PKCS5 mode, under a valid key and a 16-byte IV, [Encrypt] never
    returns the same ciphertext for two different plaintexts, in either
    engine. *)
Theorem X16_pkcs5_encrypt_injective {A : AES} {L : AESLaws}
    (key iv p1 p2 ct : bytes) :
  aes_KeySizeOK key = true -> len iv = 16 ->
  (snd (cbccrypto_Encrypt (NewCBCCrypto key iv PKCS5) p1) = Ok ct ->
   snd (cbccrypto_Encrypt (NewCBCCrypto key iv PKCS5) p2) = Ok ct -> p1 = p2) /\
  (snd (ecbcrypto_Encrypt (NewECBCrypto key PKCS5) p1) = Ok ct ->
   snd (ecbcrypto_Encrypt (NewECBCrypto key PKCS5) p2) = Ok ct -> p1 = p2).
Proof.
  intros Hk Hiv.
  destruct (PKCS5_roundtrip key iv p1 Hk Hiv) as [C1 E1].
  destruct (PKCS5_roundtrip key iv p2 Hk Hiv) as [C2 E2].
  unfold cbccrypto_roundtrip, ecbcrypto_roundtrip in *.
  split; intros H1 H2.
  - rewrite H1 in C1. rewrite H2 in C2. cbn [obind] in *. congruence.
  - rewrite H1 in E1. rewrite H2 in E2. cbn [obind] in *. congruence.
Qed.

Lemma X16_pkcs5_encrypt_injective_witness :
  snd (@ecbcrypto_Encrypt reversal (NewECBCrypto (zeros 16) PKCS5) [Byte.x41]) =
    Ok (repeat Byte.x0f 15 ++ [Byte.x41]) /\
  [Byte.x41] = [Byte.x41].
Proof.
  split; [reflexivity|].
  exact (proj2 (@X16_pkcs5_encrypt_injective reversal reversal_laws (zeros 16) (zeros 16)
                  [Byte.x41] [Byte.x41] (repeat Byte.x0f 15 ++ [Byte.x41]) eq_refl eq_refl)
           eq_refl eq_refl).
Defined.

(** ** RSA keys *)

(** X17. [Sign] and [Verify] hash the data in the same way: when the hash
    function is available and [rsa.VerifyPKCS1v15] under the public key
    accepts what [rsa.SignPKCS1v15] under the private key produces, [Verify]
    accepts every signature that [Sign] returns for the same data and hash
    function. *)
Theorem X17_verify_accepts_sign {R : RSA} (priv : PrivateKey) (pub : PublicKey)
    (hash : Hash) (data signature : bytes) :
  (forall digest s,
     rsa_SignPKCS1v15 (PrivateKey_key priv) hash digest = Ok s ->
     rsa_VerifyPKCS1v15 (PublicKey_key pub) hash digest s = None) ->
  PrivateKey_Sign priv hash data = Ok signature ->
  PublicKey_Verify pub hash data signature = Ok tt.
Proof.
  intros Hlib. unfold PrivateKey_Sign, PublicKey_Verify, hash_New.
  destruct (hash_Available hash); cbn [negb obind]; [|discriminate].
  destruct (rsa_SignPKCS1v15 _ _ _) as [s| |] eqn:Hs; cbn [obind]; try discriminate.
  intros H. injection H as <-.
  now rewrite (Hlib _ _ Hs).
Qed.

Lemma X17_verify_accepts_sign_witness :
  @PublicKey_Verify keyring (@Build_PublicKey keyring 3%nat) true [Byte.x41; Byte.x42]
    [Byte.x42; Byte.x41; Byte.x01; Byte.x01; Byte.x01] = Ok tt.
Proof.
  apply (@X17_verify_accepts_sign keyring (@Build_PrivateKey keyring 3%nat)
           (@Build_PublicKey keyring 3%nat) true [Byte.x41; Byte.x42]).
  - intros digest s H. cbn in H |- *. injection H as <-.
    now destruct (list_eq_dec _ _ _).
  - reflexivity.
Defined.

(** X18. [NewPrivateKeyFromPemBlock] panics exactly when the input holds a
    PEM block that is either of a type other than "RSA PRIVATE KEY" and
    "PRIVATE KEY", or of type "PRIVATE KEY" with a PKCS#8 body that parses
    to a key that is not an RSA key; a block of type "RSA PRIVATE KEY" never
    makes it panic. When it returns a key, that is the key the parser chosen
    by the block type returned. *)
Theorem X18_private_key_loader_outcomes {R : RSA} (pemBlock : bytes) :
  ((exists p, NewPrivateKeyFromPemBlock pemBlock = Panic p) <->
   exists block, pem_Decode pemBlock = Some block /\
     ((pem_Type block <> RSAPKCS1 /\ pem_Type block <> RSAPKCS8) \/
      (pem_Type block = RSAPKCS8 /\
       exists k, x509_ParsePKCS8PrivateKey (pem_Bytes block) = inr (inr k)))) /\
  (forall key, NewPrivateKeyFromPemBlock pemBlock = Ok {| PrivateKey_key := key |} <->
   exists block, pem_Decode pemBlock = Some block /\
     ((pem_Type block = RSAPKCS1 /\
       x509_ParsePKCS1PrivateKey (pem_Bytes block) = inr key) \/
      (pem_Type block = RSAPKCS8 /\
       x509_ParsePKCS8PrivateKey (pem_Bytes block) = inr (inl key)))).
Proof.
  assert (Hne : RSAPKCS8 <> RSAPKCS1) by discriminate.
  unfold NewPrivateKeyFromPemBlock.
  destruct (pem_Decode pemBlock) as [block|].
  2:{ split; [|intros key]; split; try discriminate.
      - intros [p H]. discriminate.
      - intros (block & H & _). discriminate.
      - intros (block & H & _). discriminate. }
  destruct (String.eqb_spec (pem_Type block) RSAPKCS1) as [E1|E1].
  - destruct (x509_ParsePKCS1PrivateKey (pem_Bytes block)) as [e|k] eqn:Hp;
      cbn [assert_rsa_PrivateKey obind].
    + split; [|intros key]; split.
      * intros [p H]. discriminate.
      * intros (b & Hb & [[H _]|[H _]]); injection Hb as <-; congruence.
      * discriminate.
      * intros (b & Hb & [[_ H]|[H _]]); injection Hb as <-; congruence.
    + split; [|intros key]; split.
      * intros [p H]. discriminate.
      * intros (b & Hb & [[H _]|[H _]]); injection Hb as <-; congruence.
      * intros H. injection H as <-. exists block. split; [reflexivity|]. now left.
      * intros (b & Hb & [[_ H]|[H _]]); injection Hb as <-; congruence.
  - destruct (String.eqb_spec (pem_Type block) RSAPKCS8) as [E8|E8].
    + destruct (x509_ParsePKCS8PrivateKey (pem_Bytes block)) as [e|[k|k]] eqn:Hp;
        cbn [assert_rsa_PrivateKey obind].
      * split; [|intros key]; split.
        -- intros [p H]. discriminate.
        -- intros (b & Hb & [[_ H]|[_ [k H]]]); injection Hb as <-; congruence.
        -- discriminate.
        -- intros (b & Hb & [[H _]|[_ H]]); injection Hb as <-; congruence.
      * split; [|intros key]; split.
        -- intros [p H]. discriminate.
        -- intros (b & Hb & [[_ H]|[_ [k' H]]]); injection Hb as <-; congruence.
        -- intros H. injection H as <-. exists block. split; [reflexivity|]. now right.
        -- intros (b & Hb & [[H _]|[_ H]]); injection Hb as <-; congruence.
      * split; [|intros key]; split.
        -- intros _. exists block. split; [reflexivity|]. right. split; [exact E8|].
           now exists k.
        -- intros _. eexists. reflexivity.
        -- discriminate.
        -- intros (b & Hb & [[H _]|[_ H]]); injection Hb as <-; congruence.
    + cbn [assert_rsa_PrivateKey obind].
      split; [|intros key]; split.
      * intros _. exists block. split; [reflexivity|]. now left.
      * intros _. eexists. reflexivity.
      * discriminate.
      * intros (b & Hb & [[H _]|[H _]]); injection Hb as <-; congruence.
Qed.

(** X19. The two public-key loaders never look at the type of the PEM
    block: two inputs whose PEM blocks have the same body give the same
    result. Without a PEM block they return the error "no PEM data is
    found", a parser's error is returned as it is, and a key that is not an
    RSA key (or, in a certificate, no key at all) makes them panic in the
    type assertion. *)
Theorem X19_public_key_loaders {R : RSA} {F : KeyFiles}
    (pemBlock other : bytes) (block block' : pem_Block) :
  (pem_Decode pemBlock = None ->
   NewPublicKeyFromPemBlock pemBlock = Err (errorString "no PEM data is found") /\
   NewPublicKeyFromDerBlock pemBlock = Err (errorString "no PEM data is found")) /\
  (pem_Decode pemBlock = Some block -> pem_Decode other = Some block' ->
   pem_Bytes block = pem_Bytes block' ->
   NewPublicKeyFromPemBlock pemBlock = NewPublicKeyFromPemBlock other /\
   NewPublicKeyFromDerBlock pemBlock = NewPublicKeyFromDerBlock other) /\
  (pem_Decode pemBlock = Some block ->
   NewPublicKeyFromPemBlock pemBlock =
     match x509_ParsePKIXPublicKey (pem_Bytes block) with
     | inl e => Err e
     | inr (rsa_pub k) => Ok {| PublicKey_key := k |}
     | inr (other_pub k) => Panic (InterfaceConversion (typeName k) "*rsa.PublicKey")
     | inr nil_pub => Panic (InterfaceConversion "nil" "*rsa.PublicKey")
     end /\
   NewPublicKeyFromDerBlock pemBlock =
     match x509_ParseCertificate (pem_Bytes block) with
     | inl e => Err e
     | inr cert =>
         match cert_PublicKey cert with
         | rsa_pub k => Ok {| PublicKey_key := k |}
         | other_pub k => Panic (InterfaceConversion (typeName k) "*rsa.PublicKey")
         | nil_pub => Panic (InterfaceConversion "nil" "*rsa.PublicKey")
         end
     end).
Proof.
  unfold NewPublicKeyFromPemBlock, NewPublicKeyFromDerBlock.
  split; [|split].
  - intros ->. split; reflexivity.
  - intros -> -> ->. split; reflexivity.
  - intros ->. split.
    + destruct (x509_ParsePKIXPublicKey _) as [e|[|k|k]]; reflexivity.
    + destruct (x509_ParseCertificate _) as [e|cert]; [reflexivity|].
      destruct (cert_PublicKey cert); reflexivity.
Qed.

Lemma X19_public_key_loaders_witness :
  @NewPublicKeyFromPemBlock keyring keyfiles [Byte.x01; Byte.x2a] =
    @NewPublicKeyFromPemBlock keyring keyfiles [Byte.x05; Byte.x2a] /\
  @NewPublicKeyFromDerBlock keyring keyfiles [Byte.x05; Byte.x03] =
    Panic (InterfaceConversion "nil" "*rsa.PublicKey") /\
  @NewPublicKeyFromPemBlock keyring keyfiles [] =
    Err (errorString "no PEM data is found").
Proof.
  split; [|split].
  - apply (proj1 (proj2 (@X19_public_key_loaders keyring keyfiles
             [Byte.x01; Byte.x2a] [Byte.x05; Byte.x2a]
             {| pem_Type := "RSA PRIVATE KEY"; pem_Bytes := [Byte.x2a] |}
             {| pem_Type := "CERTIFICATE"; pem_Bytes := [Byte.x2a] |})));
      reflexivity.
  - apply (proj2 (proj2 (@X19_public_key_loaders keyring keyfiles
             [Byte.x05; Byte.x03] []
             {| pem_Type := "CERTIFICATE"; pem_Bytes := [Byte.x03] |}
             {| pem_Type := ""; pem_Bytes := [] |})) eq_refl).
  - apply (proj1 (@X19_public_key_loaders keyring keyfiles [] []
             {| pem_Type := ""; pem_Bytes := [] |}
             {| pem_Type := ""; pem_Bytes := [] |})). reflexivity.
Defined.

(** X20. The three file loaders return a key only from a file they could
    read: when one returns a key, the path was made absolute, the file at
    the absolute path was read and the block loader returned that key from
    its content; an error of [filepath.Abs] or of [ioutil.ReadFile] is
    returned as it is, and nothing is parsed. *)
Theorem X20_file_loaders {R : RSA} {F : KeyFiles} (pemFile : string) :
  (forall e, filepath_Abs pemFile = inl e ->
     NewPrivateKeyFromPemFile pemFile = Err e /\
     NewPublicKeyFromPemFile pemFile = Err e /\
     NewPublicKeyFromDerFile pemFile = Err e) /\
  (forall keyPath e, filepath_Abs pemFile = inr keyPath ->
     ioutil_ReadFile keyPath = inl e ->
     NewPrivateKeyFromPemFile pemFile = Err e /\
     NewPublicKeyFromPemFile pemFile = Err e /\
     NewPublicKeyFromDerFile pemFile = Err e) /\
  (forall pk, NewPrivateKeyFromPemFile pemFile = Ok pk ->
     exists keyPath b, filepath_Abs pemFile = inr keyPath /\
       ioutil_ReadFile keyPath = inr b /\ NewPrivateKeyFromPemBlock b = Ok pk) /\
  (forall pk, NewPublicKeyFromPemFile pemFile = Ok pk ->
     exists keyPath b, filepath_Abs pemFile = inr keyPath /\
       ioutil_ReadFile keyPath = inr b /\ NewPublicKeyFromPemBlock b = Ok pk) /\
  (forall pk, NewPublicKeyFromDerFile pemFile = Ok pk ->
     exists keyPath b, filepath_Abs pemFile = inr keyPath /\
       ioutil_ReadFile keyPath = inr b /\ NewPublicKeyFromDerBlock b = Ok pk).
Proof.
  unfold NewPrivateKeyFromPemFile, NewPublicKeyFromPemFile, NewPublicKeyFromDerFile.
  destruct (filepath_Abs pemFile) as [e0|path].
  - repeat split; intros; congruence.
  - destruct (ioutil_ReadFile path) as [e1|b] eqn:Hr.
    + repeat split; intros; congruence.
    + repeat split; intros; try congruence; exists path, b; auto.
Qed.

Lemma X20_file_loaders_witness :
  @NewPrivateKeyFromPemFile keyring keyfiles "missing.pem" =
    Err (errorString "open: no such file or directory") /\
  @NewPublicKeyFromDerFile keyring keyfiles "" =
    Err (errorString "getwd: no such file or directory").
Proof.
  split.
  - apply (proj1 (proj2 (@X20_file_loaders keyring keyfiles "missing.pem"))
             "/missing.pem" _ eq_refl eq_refl).
  - apply (proj1 (@X20_file_loaders keyring keyfiles "") _ eq_refl).
Defined.
